(** * Column usage extraction: the ANTLR listeners of
      [databuilder.sql_parser.usage.sqlserver.column_usage_provider] and
      [databuilder.sql_parser.usage.presto.column_usage_provider]

    The two Python modules define a [ColumnUsageListener] (callbacks fired by
    [ParseTreeWalker.walk] while it walks a parse tree) and a
    [ColumnUsageProvider.get_columns] class method.  The listeners are
    embedded as state-passing functions on a record holding the four instance
    fields; a Python exception is an explicit [Raise] result.

    A Python string is modelled as the [string] of its UTF-8 bytes: the
    characters the code looks for (the semicolon, the dot, the star, the
    double quote) are ASCII and no byte of a multi-byte character is, so
    [split], [rstrip], [in] and [==] on the bytes are those of the string.
    [str.upper], which follows the Unicode tables of the interpreter, is a
    parameter of [get_columns]; what the theorems use of it is [str_upper].
    Columns and tables are modelled as values: the listeners only mutate
    objects they have just created, or all the entries of [processed_cols]
    uniformly.  An optional
    attribute or parse-tree child is an [option]; [if x:] on it tests for
    [None], and [if l:] on a list tests for emptiness. *)

From Stdlib Require Import Ascii String ZArith Lia.
From stdpp Require Import base option list strings gmap.

Local Open Scope string_scope.
Local Open Scope list_scope.

(** ** Exceptions *)

Inductive exn :=
| AttributeError   (* attribute access on [None] *)
| IndexError       (* list index out of range *)
| ResolutionError. (* raised by [Column.resolve] *)

Inductive result (A : Type) :=
| Ok (a : A)
| Raise (e : exn).
Arguments Ok {A} a.
Arguments Raise {A} e.

#[global] Instance result_ret : MRet result := fun A a => Ok a.
#[global] Instance result_bind : MBind result := fun A B f m =>
  match m with
  | Ok a => f a
  | Raise e => Raise e
  end.

#[global] Instance exn_eq_dec : EqDecision exn.
Proof. solve_decision. Defined.
#[global] Instance result_eq_dec `{EqDecision A} : EqDecision (result A).
Proof. solve_decision. Defined.

(** [for x in l: ...] with a body that may raise: the results in order, or
    the first exception. *)
Fixpoint mapR {A B} (f : A -> result B) (l : list A) : result (list B) :=
  match l with
  | [] => Ok []
  | x :: l' => y ← f x; ys ← mapR f l'; Ok (y :: ys)
  end.

(** ** Python string and list primitives used by the listeners *)

Module Py.

(** [c in s] for a one-character [c]. *)
Fixpoint contains (c : ascii) (s : string) : bool :=
  match s with
  | EmptyString => false
  | String d r => if Ascii.eqb d c then true else contains c r
  end.

(** [s.split(c)] for a one-character separator. *)
Fixpoint split (c : ascii) (s : string) : list string :=
  match s with
  | EmptyString => [EmptyString]
  | String d r =>
      if Ascii.eqb d c then EmptyString :: split c r
      else match split c r with
           | h :: t => String d h :: t
           | [] => [String d EmptyString]
           end
  end.

(** [l[i]], with Python's negative indices and [IndexError]. *)
Definition index {A} (l : list A) (i : Z) : result A :=
  let n := Z.of_nat (List.length l) in
  let j := (if i <? 0 then i + n else i)%Z in
  if (j <? 0)%Z then Raise IndexError
  else match l !! Z.to_nat j with
       | Some x => Ok x
       | None => Raise IndexError
       end.

(** [s.rstrip(c)] for a one-character [c]. *)
Fixpoint rstrip (c : ascii) (s : string) : string :=
  match s with
  | EmptyString => EmptyString
  | String d r =>
      match rstrip c r with
      | EmptyString => if Ascii.eqb d c then EmptyString else String d EmptyString
      | r' => String d r'
      end
  end.

(** What [str.upper] does to an ASCII character: [a] to [z] become [A] to
    [Z], every other one stays. *)
Definition upper_char (c : ascii) : ascii :=
  if (Ascii.leb "a" c && Ascii.leb c "z")%bool
  then ascii_of_nat (nat_of_ascii c - 32)
  else c.

(** [s.upper()] for a string [s] of ASCII characters. *)
Fixpoint ascii_upper (s : string) : string :=
  match s with
  | EmptyString => EmptyString
  | String d r => String (upper_char d) (ascii_upper r)
  end.

(** The byte is an ASCII character (a one-byte character of UTF-8). *)
Definition is_ascii (c : ascii) : bool :=
  match c with
  | Ascii _ _ _ _ _ _ _ b7 => negb b7
  end.

Definition is_lower (c : ascii) : bool :=
  (Ascii.leb "a" c && Ascii.leb c "z")%bool.

(** The last character of a string, if any. *)
Fixpoint last_char (s : string) : option ascii :=
  match s with
  | EmptyString => None
  | String d EmptyString => Some d
  | String _ r => last_char r
  end.

Fixpoint all_chars (p : ascii -> bool) (s : string) : bool :=
  match s with
  | EmptyString => true
  | String d r => p d && all_chars p r
  end.

End Py.

(** ** Data model *)

(** Modelled from the spec: the class [Table] of
    [databuilder/sql_parser/usage/column.py], which is not among the
    sources (section 3).  The listeners build it as
    [Table(name, schema=None, alias=None)]. *)
Record Table := mkTable {
  name : string;
  schema : option string;
  alias : option string
}.

(** Modelled from the spec: what the [table] attribute of a column holds, a
    [Table] or an [OrTable(tables=[...])] of the absent [column.py]
    (section 3).  [col.table.alias = a] on an [OrTable] object stores the
    attribute on that object, hence the second field. *)
Inductive TableRef :=
| PlainTable (t : Table)
| OrTable (tables : list Table) (or_alias : option string).

(** Modelled from the spec: the class [Column] of the absent [column.py]
    (section 3), built as [Column(name, table=None, col_alias=None)]. *)
Record Column := mkColumn {
  col_name : string;
  table : option TableRef;
  col_alias : option string
}.

#[global] Instance Table_eq_dec : EqDecision Table.
Proof. solve_decision. Defined.
#[global] Instance TableRef_eq_dec : EqDecision TableRef.
Proof. solve_decision. Defined.
#[global] Instance Column_eq_dec : EqDecision Column.
Proof. solve_decision. Defined.

(** [t.alias = a] *)
Definition set_alias (a : string) (t : Table) : Table :=
  mkTable (name t) (schema t) (Some a).

(** [ref.alias = a] *)
Definition set_ref_alias (a : string) (r : TableRef) : TableRef :=
  match r with
  | PlainTable t => PlainTable (set_alias a t)
  | OrTable ts _ => OrTable ts (Some a)
  end.

(** [col.table.alias = a]; raises when [col.table] is [None]. *)
Definition set_table_alias (a : string) (col : Column) : result Column :=
  match table col with
  | Some r => Ok (mkColumn (col_name col) (Some (set_ref_alias a r)) (col_alias col))
  | None => Raise AttributeError
  end.

(** [col.col_alias = a] *)
Definition set_col_alias (a : string) (col : Column) : Column :=
  mkColumn (col_name col) (table col) (Some a).

(** The instance fields of [ColumnUsageListener] (both dialects). *)
Record ColumnUsageListener := mkListener {
  processed_cols : list Column;
  _processing_cols : list Column;
  _current_col : option Column;
  _stack : list (list Column)
}.

#[global] Instance Listener_eq_dec : EqDecision ColumnUsageListener.
Proof. solve_decision. Defined.

(** [ColumnUsageListener.__init__] *)
Definition __init__ : ColumnUsageListener := mkListener [] [] None [].

(** Python truthiness of a list: [if l:] *)
Definition truthy {A} (l : list A) : bool :=
  match l with [] => false | _ => true end.

(** [Table(text)] with the default [schema=None, alias=None]. *)
Definition Table1 (text : string) : Table := mkTable text None None.

(** The nested loop of [exitQuery_specification] / [exitQuerySpecification]:
    [[
      result = []
      for col in self._processing_cols:
          for resolved in Column.resolve(col, self.processed_cols):
              result.append(resolved)
    ]] *)
Definition resolve_all (resolve : Column -> list Column -> result (list Column))
    (processing processed : list Column) : result (list Column) :=
  rs ← mapR (fun col => resolve col processed) processing;
  Ok (concat rs).

(** [for col in self.processed_cols: col.table.alias = a] *)
Definition alias_all (a : string) (cols : list Column) : result (list Column) :=
  mapR (set_table_alias a) cols.

(** ** The T-SQL listener
    [databuilder/sql_parser/usage/sqlserver/column_usage_provider.py] *)

Module SqlServer.

(** The callbacks that [ColumnUsageListener] overrides, each with what the
    handler reads from its context argument. *)
Inductive event :=
| ExitColumn_elem (column_name : option string) (table_name : option string)
                  (as_column_alias : option string)
| ExitAsterisk (table_name : option string)
| ExitSelect_list_elem
| ExitTable_name (text : string)
| ExitTable_source_item (as_table_alias : option string)
| EnterQuery_specification
| ExitQuery_specification.

Definition exitAsterisk (table_name : option string)
    (self : ColumnUsageListener) : ColumnUsageListener :=
  let current := mkColumn "*" (PlainTable ∘ Table1 <$> table_name) None in
  let processing :=
    match last (_processing_cols self) with
    | Some col =>
        if decide (col_name col = "*") then removelast (_processing_cols self)
        else _processing_cols self
    | None => _processing_cols self
    end in
  mkListener (processed_cols self) (processing ++ [current]) None (_stack self).

Definition exitSelect_list_elem (self : ColumnUsageListener)
  : ColumnUsageListener :=
  match _current_col self with
  | None => self
  | Some col =>
      mkListener (processed_cols self) (_processing_cols self ++ [col]) None
                 (_stack self)
  end.

Definition exitTable_name (text : string) (self : ColumnUsageListener)
  : result ColumnUsageListener :=
  let table_name := text in
  table ← (if Py.contains "." table_name then
             let db_tbl := Py.split "." table_name in
             n ← Py.index db_tbl (-1);
             s ← Py.index db_tbl (-2);
             Ok (mkTable n (Some s) None)
           else Ok (Table1 table_name));
  Ok (mkListener (processed_cols self) (_processing_cols self)
                 (Some (mkColumn "*" (Some (PlainTable table)) None))
                 (_stack self)).

Definition enterQuery_specification (self : ColumnUsageListener)
  : ColumnUsageListener :=
  if truthy (_processing_cols self) then
    mkListener (processed_cols self) []  (_current_col self)
               (_stack self ++ [_processing_cols self])
  else self.

Section Listener.

(** [remove_double_quotes] and [Column.resolve] are imported from
    [databuilder.sql_parser.usage.column]. *)
Variable remove_double_quotes : string -> string.
Variable resolve : Column -> list Column -> result (list Column).

Definition exitColumn_elem (column_name table_name as_column_alias : option string)
    (self : ColumnUsageListener) : result ColumnUsageListener :=
  match column_name with
  | None => Raise AttributeError
  | Some column_name =>
      let current :=
        mkColumn column_name (PlainTable ∘ Table1 <$> table_name)
                 (remove_double_quotes <$> as_column_alias) in
      Ok (mkListener (processed_cols self) (_processing_cols self)
                     (Some current) (_stack self))
  end.

Definition exitTable_source_item (as_table_alias : option string)
    (self : ColumnUsageListener) : result ColumnUsageListener :=
  match _current_col self with
  | Some col =>
      let col :=
        match table col, as_table_alias with
        | Some r, Some a =>
            mkColumn (col_name col)
                     (Some (set_ref_alias (remove_double_quotes a) r))
                     (col_alias col)
        | _, _ => col
        end in
      Ok (mkListener (processed_cols self ++ [col]) (_processing_cols self)
                     None (_stack self))
  | None =>
      match as_table_alias with
      | Some a =>
          cols ← alias_all (remove_double_quotes a) (processed_cols self);
          Ok (mkListener cols (_processing_cols self) None (_stack self))
      | None => Ok self
      end
  end.

Definition exitQuery_specification (self : ColumnUsageListener)
  : result ColumnUsageListener :=
  result ← resolve_all resolve (_processing_cols self) (processed_cols self);
  Ok (mkListener result
                 (default [] (last (_stack self)))
                 None
                 (removelast (_stack self))).

(** One callback of [ParseTreeWalker.walk]. *)
Definition handle (e : event) (self : ColumnUsageListener)
  : result ColumnUsageListener :=
  match e with
  | ExitColumn_elem c t a => exitColumn_elem c t a self
  | ExitAsterisk t => Ok (exitAsterisk t self)
  | ExitSelect_list_elem => Ok (exitSelect_list_elem self)
  | ExitTable_name text => exitTable_name text self
  | ExitTable_source_item a => exitTable_source_item a self
  | EnterQuery_specification => Ok (enterQuery_specification self)
  | ExitQuery_specification => exitQuery_specification self
  end.

(** [walker.walk(listener, parse_tree)], as the sequence of callbacks the
    walk makes on the listener; an exception stops the walk. *)
Fixpoint walk (evs : list event) (self : ColumnUsageListener)
  : result ColumnUsageListener :=
  match evs with
  | [] => Ok self
  | e :: evs' => self' ← handle e self; walk evs' self'
  end.

(** [str.upper] of the interpreter. *)
Variable upper : string -> string.

(** The lexer, parser and tree walk: the callbacks made for a text. *)
Variable callbacks : string -> list event.

(** [query.rstrip(';').upper() + "\n"] *)
Definition preprocess (query : string) : string :=
  upper (Py.rstrip ";" query) ++ String "010" EmptyString.

(** [ColumnUsageProvider.get_columns].  The first argument is the store
    of the listener objects that earlier calls have left behind; the
    call allocates its own listener and returns its [processed_cols]. *)
Definition get_columns (h : gmap nat ColumnUsageListener) (query : string)
  : gmap nat ColumnUsageListener * result (list Column) :=
  let query := preprocess query in
  let parse_tree := callbacks query in
  let listener := fresh (dom h) in
  let h := <[listener := __init__]> h in
  match walk parse_tree __init__ with
  | Ok self => (<[listener := self]> h, Ok (processed_cols self))
  | Raise e => (h, Raise e)
  end.

End Listener.

End SqlServer.

(** ** The Presto listener
    [databuilder/sql_parser/usage/presto/column_usage_provider.py] *)

Module Presto.

Inductive event :=
| ExitColumnReference (text : string)
| ExitDereference (base : string) (identifier : string)
| ExitSelectSingle (identifier : option string)
| ExitSelectAll (qualifiedName : option string)
| ExitTableName (text : string)
| ExitAliasedRelation (identifier : option string)
| ExitRelationDefault
| EnterQuerySpecification
| ExitQuerySpecification.

Definition exitColumnReference (text : string) (self : ColumnUsageListener)
  : ColumnUsageListener :=
  mkListener (processed_cols self) (_processing_cols self)
             (Some (mkColumn text None None)) (_stack self).

Definition exitDereference (base identifier : string)
    (self : ColumnUsageListener) : ColumnUsageListener :=
  mkListener (processed_cols self) (_processing_cols self)
             (Some (mkColumn identifier (Some (PlainTable (Table1 base))) None))
             (_stack self).

Definition exitSelectAll (qualifiedName : option string)
    (self : ColumnUsageListener) : ColumnUsageListener :=
  let current := mkColumn "*" (PlainTable ∘ Table1 <$> qualifiedName) None in
  mkListener (processed_cols self) (_processing_cols self ++ [current]) None
             (_stack self).

Definition exitTableName (text : string) (self : ColumnUsageListener)
  : result ColumnUsageListener :=
  let table_name := text in
  table ← (if Py.contains "." table_name then
             let db_tbl := Py.split "." table_name in
             n ← Py.index db_tbl (Z.of_nat (List.length db_tbl) - 1);
             s ← Py.index db_tbl (Z.of_nat (List.length db_tbl) - 2);
             Ok (mkTable n (Some s) None)
           else Ok (Table1 table_name));
  Ok (mkListener (processed_cols self) (_processing_cols self)
                 (Some (mkColumn "*" (Some (PlainTable table)) None))
                 (_stack self)).

Definition exitRelationDefault (self : ColumnUsageListener)
  : ColumnUsageListener :=
  match _current_col self with
  | None => self
  | Some col =>
      mkListener (processed_cols self ++ [col]) (_processing_cols self) None
                 (_stack self)
  end.

Definition enterQuerySpecification (self : ColumnUsageListener)
  : ColumnUsageListener :=
  if truthy (_processing_cols self) then
    mkListener (processed_cols self) []  (_current_col self)
               (_stack self ++ [_processing_cols self])
  else self.

Section Listener.

(** [remove_double_quotes] and [Column.resolve] are imported from
    [databuilder.sql_parser.usage.column]. *)
Variable remove_double_quotes : string -> string.
Variable resolve : Column -> list Column -> result (list Column).

Definition exitSelectSingle (identifier : option string)
    (self : ColumnUsageListener) : ColumnUsageListener :=
  match _current_col self with
  | None => self
  | Some col =>
      let col :=
        match identifier with
        | Some a => set_col_alias (remove_double_quotes a) col
        | None => col
        end in
      mkListener (processed_cols self) (_processing_cols self ++ [col]) None
                 (_stack self)
  end.

Definition exitAliasedRelation (identifier : option string)
    (self : ColumnUsageListener) : result ColumnUsageListener :=
  match identifier with
  | None => Ok self
  | Some a =>
      match _current_col self with
      | Some (mkColumn n (Some r) ca) =>
          Ok (mkListener (processed_cols self) (_processing_cols self)
                (Some (mkColumn n (Some (set_ref_alias (remove_double_quotes a) r)) ca))
                (_stack self))
      | _ =>
          cols ← alias_all (remove_double_quotes a) (processed_cols self);
          Ok (mkListener cols (_processing_cols self) (_current_col self)
                         (_stack self))
      end
  end.

Definition exitQuerySpecification (self : ColumnUsageListener)
  : result ColumnUsageListener :=
  result ← resolve_all resolve (_processing_cols self) (processed_cols self);
  Ok (mkListener result
                 (default [] (last (_stack self)))
                 None
                 (removelast (_stack self))).

Definition handle (e : event) (self : ColumnUsageListener)
  : result ColumnUsageListener :=
  match e with
  | ExitColumnReference t => Ok (exitColumnReference t self)
  | ExitDereference b i => Ok (exitDereference b i self)
  | ExitSelectSingle a => Ok (exitSelectSingle a self)
  | ExitSelectAll q => Ok (exitSelectAll q self)
  | ExitTableName text => exitTableName text self
  | ExitAliasedRelation a => exitAliasedRelation a self
  | ExitRelationDefault => Ok (exitRelationDefault self)
  | EnterQuerySpecification => Ok (enterQuerySpecification self)
  | ExitQuerySpecification => exitQuerySpecification self
  end.

(** [walker.walk(listener, parse_tree)] *)
Fixpoint walk (evs : list event) (self : ColumnUsageListener)
  : result ColumnUsageListener :=
  match evs with
  | [] => Ok self
  | e :: evs' => self' ← handle e self; walk evs' self'
  end.

(** [str.upper] of the interpreter. *)
Variable upper : string -> string.

Variable callbacks : string -> list event.

(** [query.rstrip(';').upper() + "\n"] *)
Definition preprocess (query : string) : string :=
  upper (Py.rstrip ";" query) ++ String "010" EmptyString.

(** [ColumnUsageProvider.get_columns] *)
Definition get_columns (h : gmap nat ColumnUsageListener) (query : string)
  : gmap nat ColumnUsageListener * result (list Column) :=
  let query := preprocess query in
  let parse_tree := callbacks query in
  let listener := fresh (dom h) in
  let h := <[listener := __init__]> h in
  match walk parse_tree __init__ with
  | Ok self => (<[listener := self]> h, Ok (processed_cols self))
  | Raise e => (h, Raise e)
  end.

End Listener.

End Presto.

(** ** The resolution algorithm *)

Module ColumnModel.

(** The qualifier recorded on a column reference ([FOO] in [FOO.A]): the
    listeners store it as the name of a fresh [Table]. *)
Definition qualifier (col : Column) : option string :=
  match table col with
  | Some (PlainTable t) => Some (name t)
  | Some (OrTable _ a) => a
  | None => None
  end.

(** What a qualifier is compared with: the table's alias or, absent an
    alias, its name. *)
Definition table_key (r : TableRef) : option string :=
  match r with
  | PlainTable t => Some (default (name t) (alias t))
  | OrTable _ a => a
  end.

(** Step 1, qualifier filtering. *)
Definition candidates (col : Column) (processed_cols : list Column)
  : list Column :=
  match qualifier col with
  | Some q => filter (fun p => table p ≫= table_key = Some q) processed_cols
  | None => processed_cols
  end.

(** Step 5: the reference's own alias, otherwise the matched column's. *)
Definition out_alias (col c : Column) : option string :=
  match col_alias col with
  | Some a => Some a
  | None => col_alias c
  end.

(** Step 2, the wildcard case: a concrete candidate is emitted verbatim. *)
Definition expand (col c : Column) : Column :=
  if decide (col_name c = "*") then mkColumn "*" (table c) (out_alias col c)
  else c.

(** Step 3, the named-column case: exact name, then alias, then the
    wildcard-table candidates. *)
Definition named (col : Column) (cands : list Column) : list Column :=
  let exact := filter (fun c => col_name c = col_name col) cands in
  if truthy exact then
    (fun c => mkColumn (col_name col) (table c) (out_alias col c)) <$> exact
  else
    let by_alias := filter (fun c => col_alias c = Some (col_name col)) cands in
    if truthy by_alias then
      (fun c => mkColumn (col_name c) (table c) (out_alias col c)) <$> by_alias
    else
      let wild := filter (fun c => col_name c = "*") cands in
      (fun c => mkColumn (col_name col) (table c) (out_alias col c)) <$> wild.

(** Steps 1 to 3 and 5: the resolved columns before ambiguity is looked at. *)
Definition matches (col : Column) (processed_cols : list Column)
  : list Column :=
  let cands := candidates col processed_cols in
  if decide (col_name col = "*") then expand col <$> cands
  else named col cands.

(** The distinct tables the resolved columns come from. *)
Definition distinct_tables (resolved : list Column) : list TableRef :=
  remove_dups (omap table resolved).

Definition alternatives (r : TableRef) : list Table :=
  match r with
  | PlainTable t => [t]
  | OrTable ts _ => ts
  end.

(** Modelled from the spec: [Column.resolve] of
    [databuilder/sql_parser/usage/column.py], which is not among the
    sources.  Section 4.1: qualifier filtering, the wildcard and the
    named-column case, then ambiguity resolution: resolved columns from
    more than one distinct table collapse into one column carrying an
    [OrTable] of the distinct tables, with the requested name and alias,
    when the reference had no qualifier, and are a resolution
    inconsistency when it had one.  A reference that resolves to nothing
    is a resolution error (one or more columns are produced). *)
Definition resolve (col : Column) (processed_cols : list Column)
  : result (list Column) :=
  let resolved := matches col processed_cols in
  if negb (truthy resolved) then Raise ResolutionError
  else
    let tables := distinct_tables resolved in
    if decide (2 <= List.length tables) then
      match qualifier col with
      | None =>
          Ok [mkColumn (col_name col)
                (Some (OrTable (remove_dups (tables ≫= alternatives)) None))
                (col_alias col)]
      | Some _ => Raise ResolutionError
      end
    else Ok resolved.

(** Modelled from the spec: [remove_double_quotes] of
    [databuilder/sql_parser/usage/column.py], which is not among the
    sources.  Section 6: a quoted identifier has its quote characters
    stripped before it is used as an alias. *)
Definition remove_double_quotes (val : string) : string :=
  let unquote s :=
    match s with
    | String c r => if Ascii.eqb c "034" then r else s
    | EmptyString => s
    end in
  match Py.last_char val with
  | Some c =>
      if Ascii.eqb c "034"
      then unquote (String.substring 0 (String.length val - 1) val)
      else unquote val
  | None => val
  end.

End ColumnModel.

(** ** The two queries of the unit tests

    The generated parser ([antlr_generated/TSqlParser.py]) is not among the
    sources; [get_columns] takes the callbacks of the walk as a parameter and
    the sequences below are what the theorems assume for the two texts. *)

Definition newline : string := String "010" EmptyString.

Definition tsql_join_text : string :=
  "SELECT A, B FROM SCM.FOO JOIN BAR ON FOO.A = BAR.B" ++ newline.

(** Modelled from the spec: the callbacks of the walk over the T-SQL parse
    tree of [tsql_join_text] up to the end of the second table source, in
    document order (section 6): scope entry, the two select-list items, the
    two joined table sources. *)
Definition tsql_join_select_from : list SqlServer.event :=
  [ SqlServer.EnterQuery_specification;
    SqlServer.ExitColumn_elem (Some "A") None None;
    SqlServer.ExitSelect_list_elem;
    SqlServer.ExitColumn_elem (Some "B") None None;
    SqlServer.ExitSelect_list_elem;
    SqlServer.ExitTable_name "SCM.FOO";
    SqlServer.ExitTable_source_item None;
    SqlServer.ExitTable_name "BAR";
    SqlServer.ExitTable_source_item None ].

(** Modelled from the spec: the callbacks for the [ON] condition
    [FOO.A = BAR.B], whose two qualified names are table names followed by
    an identifier. *)
Definition tsql_join_on : list SqlServer.event :=
  [ SqlServer.ExitTable_name "FOO"; SqlServer.ExitTable_name "BAR" ].

(** The columns the unit test [test_join] expects. *)
Definition tsql_join_columns : list Column :=
  [ mkColumn "A"
      (Some (OrTable [mkTable "FOO" (Some "SCM") None; mkTable "BAR" None None] None))
      None;
    mkColumn "B"
      (Some (OrTable [mkTable "FOO" (Some "SCM") None; mkTable "BAR" None None] None))
      None ].

(** The columns the unit test [test_inner_sql_col_alias] expects. *)
Definition tsql_derived_columns : list Column :=
  [ mkColumn "A" (Some (PlainTable (mkTable "FOOBAR" None (Some "TMP1")))) None;
    mkColumn "B" (Some (PlainTable (mkTable "FOOBAR" None (Some "TMP1")))) (Some "F") ].

Definition tsql_derived_text : string :=
  "SELECT TMP1.A, F FROM (SELECT A, B AS F, C FROM FOOBAR) AS TMP1" ++ newline.

(** Modelled from the spec: the callbacks of the walk over the T-SQL parse
    tree of [tsql_derived_text], in document order (section 6): the outer
    select list, the nested scope with its select list and table source, the
    alias of the derived table, the outer scope exit. *)
Definition tsql_derived_trace : list SqlServer.event :=
  [ SqlServer.EnterQuery_specification;
    SqlServer.ExitTable_name "TMP1";
    SqlServer.ExitColumn_elem (Some "A") (Some "TMP1") None;
    SqlServer.ExitSelect_list_elem;
    SqlServer.ExitColumn_elem (Some "F") None None;
    SqlServer.ExitSelect_list_elem;
    SqlServer.EnterQuery_specification;
    SqlServer.ExitColumn_elem (Some "A") None None;
    SqlServer.ExitSelect_list_elem;
    SqlServer.ExitColumn_elem (Some "B") None (Some "F");
    SqlServer.ExitSelect_list_elem;
    SqlServer.ExitColumn_elem (Some "C") None None;
    SqlServer.ExitSelect_list_elem;
    SqlServer.ExitTable_name "FOOBAR";
    SqlServer.ExitTable_source_item None;
    SqlServer.ExitQuery_specification;
    SqlServer.ExitTable_source_item (Some "TMP1");
    SqlServer.ExitQuery_specification ].

(** ** Vocabulary of the properties *)

(** The table both table-name handlers build, with the two list indices
    ([-1] and [-2] in the T-SQL listener, [len(db_tbl) - 1] and
    [len(db_tbl) - 2] in the Presto listener) as parameters. *)
Definition table_of_text (idx1 idx2 : list string -> Z) (table_name : string)
  : result Table :=
  if Py.contains "." table_name then
    let db_tbl := Py.split "." table_name in
    n ← Py.index db_tbl (idx1 db_tbl);
    s ← Py.index db_tbl (idx2 db_tbl);
    Ok (mkTable n (Some s) None)
  else Ok (Table1 table_name).

Definition tsql_idx1 : list string -> Z := fun _ => (-1)%Z.
Definition tsql_idx2 : list string -> Z := fun _ => (-2)%Z.
Definition presto_idx1 : list string -> Z := fun l => (Z.of_nat (List.length l) - 1)%Z.
Definition presto_idx2 : list string -> Z := fun l => (Z.of_nat (List.length l) - 2)%Z.

(** Both index conventions pick the last two segments. *)
Definition last_two_indices (idx1 idx2 : list string -> Z) : Prop :=
  forall l x y, Py.index (l ++ [x; y]) (idx1 (l ++ [x; y])) = Ok y /\
                Py.index (l ++ [x; y]) (idx2 (l ++ [x; y])) = Ok x.

(** The listener after a table-reference callback: a pending wildcard column
    on [t], the other fields as they were. *)
Definition with_pending_table (t : Table) (self : ColumnUsageListener)
  : ColumnUsageListener :=
  mkListener (processed_cols self) (_processing_cols self)
             (Some (mkColumn "*" (Some (PlainTable t)) None)) (_stack self).

(** The column both wildcard handlers build: [Column('*')], with
    [Table(qualifier)] when the star is qualified. *)
Definition wildcard (qualifier : option string) : Column :=
  mkColumn "*" (PlainTable ∘ Table1 <$> qualifier) None.

(** The replacement rule for a wildcard handler: a trailing wildcard of the
    processing sequence with the same or no qualifier is replaced. *)
Definition replaces_trailing_wildcard
    (handler : option string -> ColumnUsageListener -> ColumnUsageListener) : Prop :=
  forall qualifier self col,
    last (_processing_cols self) = Some col ->
    col_name col = "*" ->
    table col = None \/ table col = table (wildcard qualifier) ->
    _processing_cols (handler qualifier self)
    = removelast (_processing_cols self) ++ [wildcard qualifier].

Definition has_table (col : Column) : Prop := is_Some (table col).

(** A column with the alias stored on its table. *)
Definition aliased (a : string) (col : Column) : Column :=
  mkColumn (col_name col) (set_ref_alias a <$> table col) (col_alias col).

Definition is_fatal {A} (r : result A) : Prop := exists e, r = Raise e.

Definition with_current (c : option Column) (self : ColumnUsageListener)
  : ColumnUsageListener :=
  mkListener (processed_cols self) (_processing_cols self) c (_stack self).

(** The callbacks that only set the pending column: column references and
    table names. *)
Definition tsql_is_reference (e : SqlServer.event) : bool :=
  match e with
  | SqlServer.ExitColumn_elem (Some _) _ _ => true
  | SqlServer.ExitTable_name _ => true
  | _ => false
  end.

Definition presto_is_reference (e : Presto.event) : bool :=
  match e with
  | Presto.ExitColumnReference _ => true
  | Presto.ExitDereference _ _ => true
  | Presto.ExitTableName _ => true
  | _ => false
  end.

Definition good_ref (r : TableRef) : Prop :=
  match r with
  | PlainTable _ => True
  | OrTable ts _ => NoDup ts /\ 2 <= List.length ts
  end.

Definition good_col (col : Column) : Prop :=
  match table col with
  | Some r => good_ref r
  | None => True
  end.

Definition good_listener (self : ColumnUsageListener) : Prop :=
  Forall good_col (processed_cols self) /\
  Forall good_col (_processing_cols self) /\
  (forall col, _current_col self = Some col -> good_col col) /\
  Forall (Forall good_col) (_stack self).

(** ** Select-list items and table sources, as each listener sees them *)

(** One syntactic construct of a query, named apart from the dialect. *)
Inductive item :=
| SelectColumn (qualifier : option string) (column : string) (alias : option string)
| TableSource (text : string) (alias : option string)
| DerivedTableAlias (alias : option string)
| EnterScope
| ExitScope.

(** The select-list items of a list of (qualifier, column, alias) triples. *)
Definition select_items (l : list (option string * string * option string))
  : list item :=
  (fun '(q, n, a) => SelectColumn q n a) <$> l.

(** The callbacks of the T-SQL listener for an item: a qualified
    [column_elem] has a [table_name] child, whose exit callback comes first;
    a table source item is exited after its table name. *)
Definition tsql_item_events (i : item) : list SqlServer.event :=
  match i with
  | SelectColumn q n a =>
      match q with
      | Some t => [SqlServer.ExitTable_name t]
      | None => []
      end ++ [SqlServer.ExitColumn_elem (Some n) q a; SqlServer.ExitSelect_list_elem]
  | TableSource t a => [SqlServer.ExitTable_name t; SqlServer.ExitTable_source_item a]
  | DerivedTableAlias a => [SqlServer.ExitTable_source_item a]
  | EnterScope => [SqlServer.EnterQuery_specification]
  | ExitScope => [SqlServer.ExitQuery_specification]
  end.

(** The callbacks of the Presto listener for an item: the base of a
    dereference is a column reference of its own, and a relation is exited
    after its aliased relation. *)
Definition presto_item_events (i : item) : list Presto.event :=
  match i with
  | SelectColumn q n a =>
      match q with
      | Some t => [Presto.ExitColumnReference t; Presto.ExitDereference t n]
      | None => [Presto.ExitColumnReference n]
      end ++ [Presto.ExitSelectSingle a]
  | TableSource t a =>
      [Presto.ExitTableName t; Presto.ExitAliasedRelation a; Presto.ExitRelationDefault]
  | DerivedTableAlias a => [Presto.ExitAliasedRelation a; Presto.ExitRelationDefault]
  | EnterScope => [Presto.EnterQuerySpecification]
  | ExitScope => [Presto.ExitQuerySpecification]
  end.

(** The column a select-list item leaves in the processing sequence. *)
Definition selected (remove_double_quotes : string -> string)
    (qualifier : option string) (column : string) (alias : option string) : Column :=
  mkColumn column (PlainTable ∘ Table1 <$> qualifier) (remove_double_quotes <$> alias).

(** The table named by a text: its last segment, with the segment before it
    as the schema when there is one. *)
Definition last_two_segments (text : string) : Table :=
  match rev (Py.split "." text) with
  | y :: x :: _ => mkTable y (Some x) None
  | _ => Table1 text
  end.

(** The wildcard column a table source with an optional alias leaves in the
    processed sequence. *)
Definition source_column (remove_double_quotes : string -> string)
    (source : string * option string) : Column :=
  let t := last_two_segments source.1 in
  mkColumn "*"
    (Some (PlainTable match source.2 with
                      | Some a => set_alias (remove_double_quotes a) t
                      | None => t
                      end))
    None.

(** The table-source items of a list of (text, alias) pairs. *)
Definition table_sources (l : list (string * option string)) : list item :=
  (fun '(t, a) => TableSource t a) <$> l.

(** A query of one scope: a select list of column items, then table
    sources. *)
Definition flat_query (l : list (option string * string * option string))
    (ts : list (string * option string)) : list item :=
  EnterScope :: select_items l ++ table_sources ts ++ [ExitScope].

(** The callbacks of the T-SQL listener for a star select item, [*] or
    [q.*]: the [asterisk] rule of a qualified star contains a table name and
    an inner [asterisk]. *)
Definition tsql_star_events (qualifier : option string) : list SqlServer.event :=
  match qualifier with
  | Some q => [SqlServer.ExitTable_name q; SqlServer.ExitAsterisk None;
               SqlServer.ExitAsterisk (Some q); SqlServer.ExitSelect_list_elem]
  | None => [SqlServer.ExitAsterisk None; SqlServer.ExitSelect_list_elem]
  end.

(** A parser that knows one text, [SELECT A FROM T] and a newline, and finds
    no statement in any other. *)
Definition tsql_one_query_parser (text : string) : list SqlServer.event :=
  if String.eqb text ("SELECT A FROM T" ++ newline)
  then concat (tsql_item_events <$> flat_query [(None, "A", None)] [("T", None)])
  else [].

(** What the theorems use of [str.upper], on the UTF-8 bytes of a string:
    the empty string stays; an ASCII character is upper-cased on its own,
    [a] to [z] to [A] to [Z] and any other to itself, whatever surrounds it;
    the result ends in a semicolon only if the string does; and no letter
    [a] to [z] is left. *)
Definition str_upper (upper : string -> string) : Prop :=
  upper EmptyString = EmptyString /\
  (forall (a : string) (c : ascii) (b : string),
     Py.is_ascii c = true ->
     upper (a ++ String c b)%string
     = (upper a ++ String (Py.upper_char c) (upper b))%string) /\
  (forall s, Py.last_char s <> Some ";"%char -> Py.last_char (upper s) <> Some ";"%char) /\
  (forall s, Py.all_chars (fun c => negb (Py.is_lower c)) (upper s) = true).

(** What [get_columns] returns for the outcome of the walk. *)
Definition columns_of (r : result ColumnUsageListener) : result (list Column) :=
  match r with
  | Ok self => Ok (processed_cols self)
  | Raise e => Raise e
  end.

(** The frames on the stack are non-empty. *)
Definition frames_nonempty (self : ColumnUsageListener) : Prop :=
  Forall (fun frame => frame <> []) (_stack self).

(** [sep.join(l)] for a one-character separator. *)
Fixpoint join (c : ascii) (l : list string) : string :=
  match l with
  | [] => EmptyString
  | [s] => s
  | s :: l' => s ++ String c (join c l')
  end.

(** A string of [n] copies of a character. *)
Fixpoint replicate_char (n : nat) (c : ascii) : string :=
  match n with
  | 0 => EmptyString
  | S n' => String c (replicate_char n' c)
  end.

(** ** The sample loader [example/scripts/sample_user_loader.py] *)

Module SampleUserLoader.

(** The exceptions of the loader: [KeyError] of a dictionary subscript and
    [sqlite3.IntegrityError] of a [NOT NULL] column given [None]. *)
Inductive outcome (A : Type) :=
| Done (a : A)
| KeyError (key : string)
| IntegrityError.
Arguments Done {A} a.
Arguments KeyError {A} key.
Arguments IntegrityError {A}.

Section Loader.

(** What a cell of the CSV file holds.  A row of [csv.DictReader] maps a
    field name to [Some] cell or, for a field a short line leaves out, to
    [None] (the reader's [restval]). *)
Variable value : Type.

(** [i[key]] on a row of [csv.DictReader]. *)
Definition getitem (i : gmap string (option value)) (key : string)
  : outcome (option value) :=
  match i !! key with
  | Some v => Done v
  | None => KeyError key
  end.

(** The keys of the tuple built for a row, in the order of the list
    comprehension of [load_table_data_from_csv]. *)
Definition tuple_keys : list string :=
  ["email"; "first_name"; "last_name"; "name"; "github_username"; "team_name";
   "employee_type"; "manager_email"; "slack_id"; "is_active"; "updated_at"].

(** The columns of the [INSERT INTO user_metadata (...)] statement, in the
    order they are listed. *)
Definition insert_columns : list string :=
  ["email"; "last_name"; "first_name"; "name"; "github_username"; "employee_type";
   "team_name"; "manager_email"; "slack_id"; "is_active"; "updated_at"].

(** The tuple of one row; the subscripts are evaluated left to right. *)
Fixpoint row_tuple (keys : list string) (i : gmap string (option value))
  : outcome (list (option value)) :=
  match keys with
  | [] => Done []
  | k :: keys' =>
      match getitem i k with
      | Done v =>
          match row_tuple keys' i with
          | Done vs => Done (v :: vs)
          | KeyError key => KeyError key
          | IntegrityError => IntegrityError
          end
      | KeyError key => KeyError key
      | IntegrityError => IntegrityError
      end
  end.

(** [to_db = [(i['email'], ...) for i in dr]] *)
Fixpoint to_db (dr : list (gmap string (option value)))
  : outcome (list (list (option value))) :=
  match dr with
  | [] => Done []
  | i :: dr' =>
      match row_tuple tuple_keys i with
      | Done t =>
          match to_db dr' with
          | Done ts => Done (t :: ts)
          | KeyError key => KeyError key
          | IntegrityError => IntegrityError
          end
      | KeyError key => KeyError key
      | IntegrityError => IntegrityError
      end
  end.

(** Every column of [user_metadata] is declared [NOT NULL]: the values of a
    tuple, when none of them is [None]. *)
Fixpoint not_null (t : list (option value)) : option (list value) :=
  match t with
  | [] => Some []
  | Some v :: t' =>
      match not_null t' with
      | Some vs => Some (v :: vs)
      | None => None
      end
  | None :: _ => None
  end.

(** [cur.executemany("INSERT INTO user_metadata (c1, ..., cn) VALUES
    (?, ..., ?);", to_db)]: tuple by tuple, the i-th value is stored under
    the i-th listed column; a [None] among the values violates [NOT NULL].
    A record holds the cell bound to each column; what the column's type
    affinity makes of its text is not modelled. *)
Fixpoint executemany (columns : list string) (tuples : list (list (option value)))
  : outcome (list (gmap string value)) :=
  match tuples with
  | [] => Done []
  | t :: ts =>
      match not_null t with
      | None => IntegrityError
      | Some vs =>
          match executemany columns ts with
          | Done records => Done (list_to_map (zip columns vs) :: records)
          | KeyError key => KeyError key
          | IntegrityError => IntegrityError
          end
      end
  end.

(** [load_table_data_from_csv] once the connection is made, from the rows
    the reader yields to the records of the freshly created table
    [user_metadata]. *)
Definition load_table_data_from_csv (dr : list (gmap string (option value)))
  : outcome (list (gmap string value)) :=
  match to_db dr with
  | Done tuples => executemany insert_columns tuples
  | KeyError key => KeyError key
  | IntegrityError => IntegrityError
  end.

End Loader.

End SampleUserLoader.

(** * Properties *)

(** ** Examples *)

Example split_schema : Py.split "." "DB..FOO" = ["DB"; ""; "FOO"].
Proof. reflexivity. Qed.

Example index_negative : Py.index ["DB"; "SCM"; "FOO"] (-2) = Ok "SCM".
Proof. reflexivity. Qed.

Example index_out_of_range : Py.index ["FOO"] (-2) = Raise IndexError.
Proof. reflexivity. Qed.

Example rstrip_inner : Py.rstrip ";" "a;b;;" = "a;b".
Proof. reflexivity. Qed.

Example preprocess_test_query :
  SqlServer.preprocess Py.ascii_upper "SELECT foo, bar FROM foobar;"
  = ("SELECT FOO, BAR FROM FOOBAR" ++ newline)%string.
Proof. reflexivity. Qed.

Example resolve_single_source :
  ColumnModel.resolve (mkColumn "FOO" None None)
    [mkColumn "*" (Some (PlainTable (mkTable "FOOBAR" (Some "SCM") None))) None]
  = Ok [mkColumn "FOO" (Some (PlainTable (mkTable "FOOBAR" (Some "SCM") None))) None].
Proof. reflexivity. Qed.

Example resolve_qualified :
  ColumnModel.resolve (mkColumn "A" (Some (PlainTable (Table1 "FOO"))) None)
    [mkColumn "*" (Some (PlainTable (mkTable "FOOTABLE" None (Some "FOO")))) None;
     mkColumn "*" (Some (PlainTable (mkTable "BARTABLE" None (Some "BAR")))) None]
  = Ok [mkColumn "A" (Some (PlainTable (mkTable "FOOTABLE" None (Some "FOO")))) None].
Proof. reflexivity. Qed.

Example resolve_wildcard_through_derived_table :
  ColumnModel.resolve (mkColumn "*" None None)
    [mkColumn "A" (Some (PlainTable (Table1 "FOOBAR"))) None;
     mkColumn "B" (Some (PlainTable (Table1 "FOOBAR"))) (Some "F")]
  = Ok [mkColumn "A" (Some (PlainTable (Table1 "FOOBAR"))) None;
        mkColumn "B" (Some (PlainTable (Table1 "FOOBAR"))) (Some "F")].
Proof. reflexivity. Qed.

Example resolve_unknown_qualifier :
  ColumnModel.resolve (mkColumn "A" (Some (PlainTable (Table1 "NOPE"))) None)
    [mkColumn "*" (Some (PlainTable (Table1 "FOOBAR"))) None]
  = Raise ResolutionError.
Proof. reflexivity. Qed.

Example qualified_star_fires_twice :
  SqlServer.exitAsterisk (Some "A") (SqlServer.exitAsterisk None __init__)
  = mkListener [] [wildcard (Some "A")] None [].
Proof. reflexivity. Qed.

(** ** Strings *)

Lemma string_app_assoc (a b d : string) :
  ((a ++ b) ++ d)%string = (a ++ (b ++ d))%string.
Proof.
  induction a as [|x a IH]; [reflexivity|].
  change (String x ((a ++ b) ++ d)%string = String x (a ++ (b ++ d))%string).
  rewrite IH. reflexivity.
Qed.

Section PyFacts.

Variable c : ascii.

Lemma split_nonempty s : Py.split c s <> [].
Proof.
  destruct s as [|d r]; simpl; [discriminate|].
  destruct (Ascii.eqb d c); [discriminate|].
  destruct (Py.split c r); discriminate.
Qed.

Lemma split_no_sep s : Py.contains c s = false -> Py.split c s = [s].
Proof.
  induction s as [|d r IH]; simpl; [reflexivity|].
  destruct (Ascii.eqb d c); [discriminate|].
  intros H. rewrite (IH H). reflexivity.
Qed.

Lemma split_app_sep a b :
  Py.split c (a ++ String c b) = Py.split c a ++ Py.split c b.
Proof.
  induction a as [|d a IH]; simpl.
  - rewrite Ascii.eqb_refl. reflexivity.
  - destruct (Ascii.eqb d c); [rewrite IH; reflexivity|].
    rewrite IH. pose proof (split_nonempty a) as Hne.
    destruct (Py.split c a); [contradiction|reflexivity].
Qed.

Lemma contains_app a b :
  Py.contains c (a ++ b) = (Py.contains c a || Py.contains c b)%bool.
Proof.
  induction a as [|d a IH]; simpl; [reflexivity|].
  destruct (Ascii.eqb d c); [reflexivity|exact IH].
Qed.

Lemma split_length s :
  Py.contains c s = true -> 2 <= List.length (Py.split c s).
Proof.
  induction s as [|d r IH]; simpl; [discriminate|].
  destruct (Ascii.eqb d c).
  - intros _. pose proof (split_nonempty r).
    destruct (Py.split c r); [contradiction|simpl; lia].
  - intros H. specialize (IH H).
    destruct (Py.split c r); simpl in *; lia.
Qed.

Lemma rstrip_sep_end s : Py.rstrip c (s ++ String c EmptyString) = Py.rstrip c s.
Proof.
  induction s as [|d r IH]; simpl.
  - rewrite Ascii.eqb_refl. reflexivity.
  - rewrite IH. reflexivity.
Qed.

Lemma rstrip_last s : Py.last_char (Py.rstrip c s) <> Some c.
Proof.
  induction s as [|d r IH]; simpl; [discriminate|].
  destruct (Py.rstrip c r) as [|e r'] eqn:E.
  - destruct (Ascii.eqb d c) eqn:Ed; simpl; [discriminate|].
    intros [= ->]. rewrite Ascii.eqb_refl in Ed. discriminate.
  - exact IH.
Qed.

End PyFacts.

Lemma index_nonneg {A} (l : list A) (i : Z) (x : A) :
  (0 <= i)%Z -> l !! Z.to_nat i = Some x -> Py.index l i = Ok x.
Proof.
  intros Hi Hx. unfold Py.index.
  destruct (Z.ltb_spec i 0) as [?|_]; [lia|].
  destruct (Z.ltb_spec i 0) as [?|_]; [lia|].
  rewrite Hx. reflexivity.
Qed.

Lemma index_neg {A} (l : list A) (i : Z) (x : A) :
  (i < 0)%Z -> (0 <= i + Z.of_nat (List.length l))%Z ->
  l !! Z.to_nat (i + Z.of_nat (List.length l)) = Some x -> Py.index l i = Ok x.
Proof.
  intros Hi Hn Hx. unfold Py.index.
  destruct (Z.ltb_spec i 0) as [_|?]; [|lia].
  destruct (Z.ltb_spec (i + Z.of_nat (List.length l)) 0) as [?|_]; [lia|].
  rewrite Hx. reflexivity.
Qed.

Lemma index_last2 {A} (l : list A) (x y : A) :
  Py.index (l ++ [x; y]) (-1) = Ok y /\ Py.index (l ++ [x; y]) (-2) = Ok x /\
  Py.index (l ++ [x; y]) (Z.of_nat (List.length (l ++ [x; y])) - 1) = Ok y /\
  Py.index (l ++ [x; y]) (Z.of_nat (List.length (l ++ [x; y])) - 2) = Ok x.
Proof.
  assert (Hy : (l ++ [x; y]) !! (List.length l + 1) = Some y).
  { rewrite lookup_app_r by lia.
    replace (List.length l + 1 - List.length l) with 1 by lia. reflexivity. }
  assert (Hx : (l ++ [x; y]) !! (List.length l) = Some x).
  { rewrite lookup_app_r by lia.
    replace (List.length l - List.length l) with 0 by lia. reflexivity. }
  assert (Hn : List.length (l ++ [x; y]) = List.length l + 2).
  { rewrite length_app. reflexivity. }
  repeat split.
  - apply index_neg; [lia|lia|]. rewrite Hn.
    replace (Z.to_nat _) with (List.length l + 1) by lia. exact Hy.
  - apply index_neg; [lia|lia|]. rewrite Hn.
    replace (Z.to_nat _) with (List.length l) by lia. exact Hx.
  - apply index_nonneg; [lia|]. rewrite Hn.
    replace (Z.to_nat _) with (List.length l + 1) by lia. exact Hy.
  - apply index_nonneg; [lia|]. rewrite Hn.
    replace (Z.to_nat _) with (List.length l) by lia. exact Hx.
Qed.

Lemma two_last {A} (l : list A) :
  2 <= List.length l -> exists l' x y, l = l' ++ [x; y].
Proof.
  intros H. destruct (rev l) as [|y [|x r]] eqn:E.
  - apply (f_equal (@List.length A)) in E. rewrite length_rev in E. simpl in E. lia.
  - apply (f_equal (@List.length A)) in E. rewrite length_rev in E. simpl in E. lia.
  - exists (rev r), x, y. rewrite <- (rev_involutive l), E. simpl.
    rewrite <- app_assoc. reflexivity.
Qed.

Lemma tsql_indices : last_two_indices tsql_idx1 tsql_idx2.
Proof. intros l x y. pose proof (index_last2 l x y). tauto. Qed.

Lemma presto_indices : last_two_indices presto_idx1 presto_idx2.
Proof. intros l x y. pose proof (index_last2 l x y). tauto. Qed.

Section TableOfText.

Variables idx1 idx2 : list string -> Z.
Hypothesis Hidx : last_two_indices idx1 idx2.

Lemma table_of_text_plain text :
  Py.contains "." text = false ->
  table_of_text idx1 idx2 text = Ok (mkTable text None None).
Proof. unfold table_of_text. intros ->. reflexivity. Qed.

Lemma table_of_text_dotted pre seg2 seg1 :
  Py.contains "." seg1 = false ->
  Py.contains "." seg2 = false ->
  (pre = EmptyString \/ exists p : string, pre = (p ++ ".")%string) ->
  table_of_text idx1 idx2 (pre ++ seg2 ++ "." ++ seg1)%string
  = Ok (mkTable seg1 (Some seg2) None).
Proof.
  intros H1 H2 Hpre. unfold table_of_text.
  rewrite !contains_app. simpl Py.contains at 3.
  rewrite Bool.orb_true_r, Bool.orb_true_r.
  assert (Hdot : ("." ++ seg1)%string = String "." seg1) by reflexivity.
  assert (Hs : exists l, Py.split "." (pre ++ seg2 ++ "." ++ seg1)%string = l ++ [seg2; seg1]).
  { rewrite Hdot. destruct Hpre as [->|[p ->]].
    - exists []. change (EmptyString ++ ?x)%string with x.
      rewrite split_app_sep, (split_no_sep _ _ H1), (split_no_sep _ _ H2).
      reflexivity.
    - exists (Py.split "." p).
      rewrite string_app_assoc.
      change ("." ++ ?x)%string with (String "." x).
      rewrite split_app_sep, split_app_sep,
        (split_no_sep _ _ H1), (split_no_sep _ _ H2). reflexivity. }
  destruct Hs as [l ->]. destruct (Hidx l seg2 seg1) as [-> ->]. reflexivity.
Qed.

Lemma table_of_text_total text : exists t, table_of_text idx1 idx2 text = Ok t.
Proof.
  unfold table_of_text. destruct (Py.contains "." text) eqn:E; [|eauto].
  destruct (two_last _ (split_length _ _ E)) as (l & x & y & ->).
  destruct (Hidx l x y) as [-> ->]. simpl. eauto.
Qed.

End TableOfText.

(** ** Upper-casing and stripping *)

Lemma append_cons d (a b : string) : (String d a ++ b)%string = String d (a ++ b)%string.
Proof. reflexivity. Qed.

Lemma append_nil_l (a : string) : (EmptyString ++ a)%string = a.
Proof. reflexivity. Qed.

Lemma rstrip_decompose c s :
  exists n, s = (Py.rstrip c s ++ replicate_char n c)%string.
Proof.
  induction s as [|d r [n IH]]; [exists 0; reflexivity|]. simpl.
  destruct (Py.rstrip c r) as [|e r'] eqn:Er.
  - rewrite append_nil_l in IH. destruct (Ascii.eqb d c) eqn:Ed.
    + apply Ascii.eqb_eq in Ed. subst d. exists (S n). rewrite IH at 1. reflexivity.
    + exists n. rewrite IH at 1. reflexivity.
  - exists n. rewrite IH at 1. reflexivity.
Qed.

Lemma rstrip_id c s : Py.last_char s <> Some c -> Py.rstrip c s = s.
Proof.
  induction s as [|d r IH]; [reflexivity|]. intros H. simpl.
  destruct r as [|e r'].
  - simpl. destruct (Ascii.eqb d c) eqn:Ed; [|reflexivity].
    apply Ascii.eqb_eq in Ed. subst d. contradiction H. reflexivity.
  - rewrite IH by exact H. reflexivity.
Qed.

Lemma append_nil_r (s : string) : (s ++ EmptyString)%string = s.
Proof.
  induction s as [|d r IH]; [reflexivity|]. rewrite append_cons, IH. reflexivity.
Qed.

Lemma replicate_char_snoc n c :
  replicate_char (S n) c = (replicate_char n c ++ String c EmptyString)%string.
Proof.
  induction n as [|n IH]; [reflexivity|].
  change (replicate_char (S (S n)) c) with (String c (replicate_char (S n) c)).
  rewrite IH at 1. reflexivity.
Qed.

Lemma rstrip_app_replicate c r n :
  Py.last_char r <> Some c -> Py.rstrip c (r ++ replicate_char n c) = r.
Proof.
  intros H. induction n as [|n IH].
  - rewrite append_nil_r. apply rstrip_id, H.
  - rewrite replicate_char_snoc, <- string_app_assoc, rstrip_sep_end. exact IH.
Qed.

Lemma all_chars_rstrip p c s :
  Py.all_chars p s = true -> Py.all_chars p (Py.rstrip c s) = true.
Proof.
  induction s as [|d r IH]; [trivial|]. simpl. intros H.
  apply andb_prop in H as [Hd Hr]. specialize (IH Hr).
  destruct (Py.rstrip c r) as [|e r'].
  - destruct (Ascii.eqb d c); [reflexivity|]. simpl. rewrite Hd. reflexivity.
  - change (Py.all_chars p (String d (String e r')))
      with (p d && Py.all_chars p (String e r'))%bool.
    rewrite Hd, IH. reflexivity.
Qed.

Lemma upper_char_sep c : Ascii.eqb (Py.upper_char c) ";" = Ascii.eqb c ";".
Proof. destruct c as [[] [] [] [] [] [] [] []]; reflexivity. Qed.

Lemma upper_char_not_lower c : Py.is_lower (Py.upper_char c) = false.
Proof. destruct c as [[] [] [] [] [] [] [] []]; reflexivity. Qed.

(** The letters [a] to [z] (codes 97 to 122) move down by 32, to [A] to [Z];
    every other byte stays. *)
Lemma upper_char_spec c :
  (97 <= nat_of_ascii c <= 122 ->
   nat_of_ascii (Py.upper_char c) = nat_of_ascii c - 32) /\
  (~ 97 <= nat_of_ascii c <= 122 -> Py.upper_char c = c).
Proof.
  destruct c as [[] [] [] [] [] [] [] []]; split; intros H;
    first [reflexivity | vm_compute in H; lia].
Qed.

Lemma ascii_upper_not_lower s :
  Py.all_chars (fun c => negb (Py.is_lower c)) (Py.ascii_upper s) = true.
Proof.
  induction s as [|d r IH]; simpl; [reflexivity|].
  rewrite upper_char_not_lower, IH. reflexivity.
Qed.

Lemma ascii_upper_app a b :
  Py.ascii_upper (a ++ b) = (Py.ascii_upper a ++ Py.ascii_upper b)%string.
Proof.
  induction a as [|d a IH]; [reflexivity|].
  rewrite append_cons. simpl. rewrite IH. reflexivity.
Qed.

Lemma ascii_upper_last s :
  Py.last_char (Py.ascii_upper s) = Py.upper_char <$> Py.last_char s.
Proof.
  induction s as [|d r IH]; [reflexivity|].
  destruct r as [|e r']; [reflexivity|]. exact IH.
Qed.

Lemma ascii_upper_get i s :
  String.get i (Py.ascii_upper s) = Py.upper_char <$> String.get i s.
Proof.
  revert i. induction s as [|d r IH]; intros i; [reflexivity|].
  destruct i as [|i]; [reflexivity|]. simpl. apply IH.
Qed.

Lemma ascii_upper_length s : String.length (Py.ascii_upper s) = String.length s.
Proof. induction s as [|d r IH]; simpl; [reflexivity|]. rewrite IH. reflexivity. Qed.

(** The ASCII function has what the theorems use of [str.upper]. *)
Lemma ascii_upper_is_str_upper : str_upper Py.ascii_upper.
Proof.
  split; [reflexivity|]. split; [|split].
  - intros a c b _. rewrite ascii_upper_app. reflexivity.
  - intros s H. rewrite ascii_upper_last.
    destruct (Py.last_char s) as [c|]; [|discriminate]. simpl. intros [= Hc].
    apply H. f_equal. apply Ascii.eqb_eq. rewrite <- upper_char_sep, Hc. reflexivity.
  - apply ascii_upper_not_lower.
Qed.

Section StrUpper.

Variable upper : string -> string.
Hypothesis Hupper : str_upper upper.

Lemma str_upper_ascii s :
  Py.all_chars Py.is_ascii s = true -> upper s = Py.ascii_upper s.
Proof.
  destruct Hupper as (H0 & Hsplit & _).
  induction s as [|d r IH]; [intros _; exact H0|]. simpl. intros H.
  apply andb_prop in H as [Hd Hr].
  rewrite <- (append_nil_l (String d r)), (Hsplit _ _ _ Hd), H0, (IH Hr).
  reflexivity.
Qed.

Lemma str_upper_replicate n : upper (replicate_char n ";") = replicate_char n ";".
Proof.
  rewrite str_upper_ascii.
  - induction n as [|n IH]; [reflexivity|]. simpl. rewrite IH. reflexivity.
  - induction n as [|n IH]; [reflexivity|exact IH].
Qed.

Lemma str_upper_semicolons r n :
  upper (r ++ replicate_char n ";") = (upper r ++ replicate_char n ";")%string.
Proof.
  destruct n as [|n]; [rewrite !append_nil_r; reflexivity|].
  destruct Hupper as (_ & Hsplit & _).
  change (replicate_char (S n) ";") with (String ";" (replicate_char n ";")).
  rewrite (Hsplit r ";"%char _ eq_refl), str_upper_replicate. reflexivity.
Qed.

Lemma str_upper_last s :
  Py.last_char s <> Some ";"%char -> Py.last_char (upper s) <> Some ";"%char.
Proof. destruct Hupper as (_ & _ & H & _). apply H. Qed.

Lemma str_upper_rstrip s : upper (Py.rstrip ";" s) = Py.rstrip ";" (upper s).
Proof.
  pose proof (rstrip_last ";" s) as Hl.
  destruct (rstrip_decompose ";" s) as [n Hn].
  remember (Py.rstrip ";" s) as r eqn:Er. rewrite Hn.
  rewrite str_upper_semicolons, rstrip_app_replicate; [reflexivity|].
  apply str_upper_last, Hl.
Qed.

End StrUpper.

Lemma preprocess_same upper query :
  Presto.preprocess upper query = SqlServer.preprocess upper query.
Proof. reflexivity. Qed.

Lemma preprocess_upper upper q q' :
  str_upper upper ->
  upper q = upper q' -> SqlServer.preprocess upper q = SqlServer.preprocess upper q'.
Proof.
  intros Hu H. unfold SqlServer.preprocess.
  rewrite !(str_upper_rstrip upper Hu), H. reflexivity.
Qed.

Lemma preprocess_terminator upper q :
  SqlServer.preprocess upper (q ++ ";") = SqlServer.preprocess upper q.
Proof.
  unfold SqlServer.preprocess.
  change (q ++ ";")%string with (q ++ String ";" EmptyString)%string.
  rewrite rstrip_sep_end. reflexivity.
Qed.

(** ** Table references *)

Lemma exitTable_name_eq text self :
  SqlServer.exitTable_name text self
  = (t ← table_of_text tsql_idx1 tsql_idx2 text; Ok (with_pending_table t self)).
Proof. reflexivity. Qed.

Lemma exitTableName_eq text self :
  Presto.exitTableName text self
  = (t ← table_of_text presto_idx1 presto_idx2 text; Ok (with_pending_table t self)).
Proof. reflexivity. Qed.

(** C5: in both listeners a table-reference callback leaves a pending
    wildcard column whose table is read off the reference text split on the
    dot: without a dot the table is named by the whole text and has no
    schema; otherwise the last segment is the name and the segment before it
    the schema.  The callback never raises. *)
Theorem table_reference_split (text : string) (self : ColumnUsageListener) :
  (Py.contains "." text = false ->
     SqlServer.exitTable_name text self
       = Ok (with_pending_table (mkTable text None None) self) /\
     Presto.exitTableName text self
       = Ok (with_pending_table (mkTable text None None) self)) /\
  (forall pre seg2 seg1 : string,
     text = (pre ++ seg2 ++ "." ++ seg1)%string ->
     Py.contains "." seg1 = false ->
     Py.contains "." seg2 = false ->
     (pre = EmptyString \/ exists p : string, pre = (p ++ ".")%string) ->
     SqlServer.exitTable_name text self
       = Ok (with_pending_table (mkTable seg1 (Some seg2) None) self) /\
     Presto.exitTableName text self
       = Ok (with_pending_table (mkTable seg1 (Some seg2) None) self)) /\
  (exists t, SqlServer.exitTable_name text self = Ok (with_pending_table t self) /\
             Presto.exitTableName text self = Ok (with_pending_table t self)).
Proof.
  rewrite exitTable_name_eq, exitTableName_eq. repeat split.
  - rewrite (table_of_text_plain _ _ _ H). reflexivity.
  - rewrite (table_of_text_plain _ _ _ H). reflexivity.
  - subst text.
    rewrite (table_of_text_dotted _ _ tsql_indices pre seg2 seg1) by assumption.
    reflexivity.
  - subst text.
    rewrite (table_of_text_dotted _ _ presto_indices pre seg2 seg1) by assumption.
    reflexivity.
  - destruct (table_of_text_total _ _ tsql_indices text) as [t Ht].
    destruct (table_of_text_total _ _ presto_indices text) as [t' Ht'].
    assert (t' = t) as ->.
    { unfold table_of_text in Ht, Ht'.
      destruct (Py.contains "." text) eqn:E; [|congruence].
      destruct (two_last _ (split_length _ _ E)) as (l & x & y & Hl).
      rewrite Hl in Ht, Ht'.
      destruct (tsql_indices l x y) as [H1 H2].
      destruct (presto_indices l x y) as [H3 H4].
      rewrite H1, H2 in Ht. rewrite H3, H4 in Ht'. simpl in Ht, Ht'. congruence. }
    exists t. rewrite Ht, Ht'. split; reflexivity.
Qed.

Lemma table_reference_split_witness :
  SqlServer.exitTable_name "DB.SCM.FOO" __init__
    = Ok (with_pending_table (mkTable "FOO" (Some "SCM") None) __init__) /\
  Presto.exitTableName "DB.SCM.FOO" __init__
    = Ok (with_pending_table (mkTable "FOO" (Some "SCM") None) __init__) /\
  SqlServer.exitTable_name "BAR" __init__
    = Ok (with_pending_table (mkTable "BAR" None None) __init__).
Proof.
  destruct (table_reference_split "DB.SCM.FOO" __init__) as (_ & H & _).
  destruct (table_reference_split "BAR" __init__) as (H0 & _ & _).
  destruct (H "DB." "SCM" "FOO") as [H1 H2];
    [reflexivity | reflexivity | reflexivity | right; exists "DB"; reflexivity |].
  destruct H0 as [H3 _]; [reflexivity|].
  exact (conj H1 (conj H2 H3)).
Defined.

(** ** [get_columns] *)

Section GetColumns.

Variable remove_double_quotes : string -> string.
Variable resolve : Column -> list Column -> result (list Column).
Variable upper : string -> string.

Local Abbreviation tsql := (SqlServer.get_columns remove_double_quotes resolve upper).
Local Abbreviation presto := (Presto.get_columns remove_double_quotes resolve upper).

Lemma tsql_get_columns_text cb cb' h q q' :
  cb (SqlServer.preprocess upper q) = cb' (SqlServer.preprocess upper q') ->
  tsql cb h q = tsql cb' h q'.
Proof. unfold SqlServer.get_columns. intros ->. reflexivity. Qed.

Lemma presto_get_columns_text cb cb' h q q' :
  cb (Presto.preprocess upper q) = cb' (Presto.preprocess upper q') ->
  presto cb h q = presto cb' h q'.
Proof. unfold Presto.get_columns. intros ->. reflexivity. Qed.

Lemma tsql_get_columns_walk cb h query :
  (tsql cb h query).2
  = columns_of (SqlServer.walk remove_double_quotes resolve
                  (cb (upper (Py.rstrip ";" query) ++ newline)%string) __init__).
Proof.
  unfold SqlServer.get_columns, SqlServer.preprocess, newline.
  destruct (SqlServer.walk _ _ _ _); reflexivity.
Qed.

Lemma presto_get_columns_walk cb h query :
  (presto cb h query).2
  = columns_of (Presto.walk remove_double_quotes resolve
                  (cb (upper (Py.rstrip ";" query) ++ newline)%string) __init__).
Proof.
  unfold Presto.get_columns, Presto.preprocess, newline.
  destruct (Presto.walk _ _ _ _); reflexivity.
Qed.

(** C7: both providers walk the parse of one text, the query with the run
    of semicolons at its end stripped, upper-cased by [str.upper], and a
    newline.  The stripped text is the query less trailing semicolons only;
    the upper-cased text ends in no semicolon and has no letter [a] to [z];
    for an ASCII query it is the stripped text character by character, with
    [a] to [z] moved to [A] to [Z] and every other character as it was.
    Stripping and upper-casing commute, so queries with the same upper-cased
    text, or that differ in a trailing semicolon, give the same columns. *)
Theorem query_stripped_and_upper_cased (query : string) :
  str_upper upper ->
  let stripped := Py.rstrip ";" query in
  let body := upper stripped in
  (forall cb h,
     (tsql cb h query).2
     = columns_of (SqlServer.walk remove_double_quotes resolve
                     (cb (body ++ newline)%string) __init__)) /\
  (forall cb h,
     (presto cb h query).2
     = columns_of (Presto.walk remove_double_quotes resolve
                     (cb (body ++ newline)%string) __init__)) /\
  (exists n, query = (stripped ++ replicate_char n ";")%string /\
             Py.last_char stripped <> Some ";"%char) /\
  Py.last_char body <> Some ";"%char /\
  body = Py.rstrip ";" (upper query) /\
  Py.all_chars (fun c => negb (Py.is_lower c)) body = true /\
  (Py.all_chars Py.is_ascii query = true ->
   String.length body = String.length stripped /\
   forall i c, String.get i stripped = Some c ->
               String.get i body = Some (Py.upper_char c)) /\
  (forall c,
     (97 <= nat_of_ascii c <= 122 ->
      nat_of_ascii (Py.upper_char c) = nat_of_ascii c - 32) /\
     (~ 97 <= nat_of_ascii c <= 122 -> Py.upper_char c = c)) /\
  (forall cb cb' h (query' : string),
     upper query' = upper query \/ query' = (query ++ ";")%string ->
     tsql cb h query' = tsql cb h query /\
     presto cb' h query' = presto cb' h query).
Proof.
  intros Hu stripped body.
  split; [intros cb h; apply tsql_get_columns_walk|].
  split; [intros cb h; apply presto_get_columns_walk|].
  split.
  { destruct (rstrip_decompose ";" query) as [n Hn]. exists n.
    split; [exact Hn|apply rstrip_last]. }
  split; [apply (str_upper_last upper Hu), rstrip_last|].
  split; [apply (str_upper_rstrip upper Hu)|].
  split; [destruct Hu as (_ & _ & _ & H); apply H|].
  split.
  { intros Ha. subst body.
    rewrite (str_upper_ascii upper Hu stripped (all_chars_rstrip _ _ _ Ha)).
    split; [apply ascii_upper_length|].
    intros i c Hc. rewrite ascii_upper_get, Hc. reflexivity. }
  split; [apply upper_char_spec|].
  intros cb cb' h query' H.
  assert (E : SqlServer.preprocess upper query' = SqlServer.preprocess upper query).
  { destruct H as [H| ->];
      [apply preprocess_upper; assumption | apply preprocess_terminator]. }
  split.
  - apply tsql_get_columns_text. rewrite E. reflexivity.
  - apply presto_get_columns_text. rewrite !preprocess_same, E. reflexivity.
Qed.

End GetColumns.

(** ** Wildcards in the select list *)

Lemma exitAsterisk_trailing qualifier self col :
  last (_processing_cols self) = Some col ->
  col_name col = "*" ->
  _processing_cols (SqlServer.exitAsterisk qualifier self)
  = removelast (_processing_cols self) ++ [wildcard qualifier].
Proof.
  intros Hl Hc. unfold SqlServer.exitAsterisk. rewrite Hl. simpl.
  destruct (decide (col_name col = "*")); [reflexivity|contradiction].
Qed.

(** C4, counterexample: the Presto handler appends a second wildcard after
    an unqualified one. *)
Lemma presto_wildcard_not_replaced :
  _processing_cols (Presto.exitSelectAll None (mkListener [] [wildcard None] None []))
    = [wildcard None; wildcard None] /\
  ~ replaces_trailing_wildcard Presto.exitSelectAll.
Proof.
  split; [reflexivity|]. intros H.
  specialize (H None (mkListener [] [wildcard None] None []) (wildcard None)
                eq_refl eq_refl (or_introl eq_refl)).
  discriminate H.
Qed.

(** C4, amended: the T-SQL handler replaces a trailing wildcard of the
    processing sequence that has the same or no qualifier, so the sequence
    keeps its length, and the callback fired twice for one star (first
    without, then with the qualifier, or twice alike) leaves what firing it
    once leaves; the Presto handler always appends. *)
Theorem wildcard_replaced_in_tsql_appended_in_presto
    (qualifier : option string) (self : ColumnUsageListener) :
  replaces_trailing_wildcard SqlServer.exitAsterisk /\
  (forall col,
     last (_processing_cols self) = Some col -> col_name col = "*" ->
     table col = None \/ table col = table (wildcard qualifier) ->
     _processing_cols (SqlServer.exitAsterisk qualifier self)
       = removelast (_processing_cols self) ++ [wildcard qualifier] /\
     List.length (_processing_cols (SqlServer.exitAsterisk qualifier self))
       = List.length (_processing_cols self)) /\
  (forall qualifier',
     qualifier' = None \/ qualifier' = qualifier ->
     SqlServer.exitAsterisk qualifier (SqlServer.exitAsterisk qualifier' self)
     = SqlServer.exitAsterisk qualifier self) /\
  _processing_cols (Presto.exitSelectAll qualifier self)
    = _processing_cols self ++ [wildcard qualifier].
Proof.
  split; [|split; [|split]].
  - intros q s col Hl Hc _. apply exitAsterisk_trailing with col; assumption.
  - intros col Hl Hc _. rewrite (exitAsterisk_trailing _ _ col Hl Hc).
    split; [reflexivity|].
    apply last_Some in Hl as [l' Hl]. rewrite Hl, removelast_last, !length_app.
    reflexivity.
  - intros q' _. unfold SqlServer.exitAsterisk at 1. simpl.
    rewrite last_snoc. simpl. rewrite removelast_last.
    unfold SqlServer.exitAsterisk.
    destruct (last (_processing_cols self)) as [col|] eqn:Hl.
    + destruct (decide (col_name col = "*")).
      * apply last_Some in Hl as [l' Hl]. rewrite Hl, removelast_last.
        reflexivity.
      * reflexivity.
    + reflexivity.
  - reflexivity.
Qed.

Lemma wildcard_replaced_in_tsql_appended_in_presto_witness :
  _processing_cols
    (SqlServer.exitAsterisk (Some "A") (mkListener [] [wildcard None] None []))
  = [wildcard (Some "A")].
Proof.
  destruct (wildcard_replaced_in_tsql_appended_in_presto
              (Some "A") (mkListener [] [wildcard None] None [])) as (_ & H & _).
  destruct (H (wildcard None)) as [H1 _];
    [reflexivity | reflexivity | left; reflexivity |].
  exact H1.
Defined.

(** ** Aliases of table sources *)

Lemma bind_Ok {A B} (f : A -> result B) (a : A) : (Ok a ≫= f) = f a.
Proof. reflexivity. Qed.

Lemma mapR_cons {A B} (f : A -> result B) x l :
  mapR f (x :: l) = (y ← f x; ys ← mapR f l; Ok (y :: ys)).
Proof. reflexivity. Qed.

Lemma set_table_alias_spec a col :
  set_table_alias a col
  = match table col with
    | Some _ => Ok (aliased a col)
    | None => Raise AttributeError
    end.
Proof. unfold set_table_alias, aliased. destruct (table col); reflexivity. Qed.

Lemma alias_all_ok a cols :
  Forall has_table cols -> alias_all a cols = Ok (aliased a <$> cols).
Proof.
  unfold alias_all. induction 1 as [|col cols [r Hr] _ IH]; [reflexivity|].
  rewrite mapR_cons, IH, set_table_alias_spec, Hr. reflexivity.
Qed.

Lemma alias_all_inv a cols cols' :
  alias_all a cols = Ok cols' -> Forall has_table cols /\ cols' = aliased a <$> cols.
Proof.
  unfold alias_all. revert cols'. induction cols as [|col cols IH].
  - intros cols' [= <-]. split; [constructor|reflexivity].
  - intros cols'. rewrite mapR_cons, set_table_alias_spec.
    destruct (table col) as [r|] eqn:Hr; [|intros H; discriminate H].
    destruct (mapR (set_table_alias a) cols) as [ys|] eqn:E;
      [|intros H; discriminate H].
    intros [= <-]. destruct (IH ys eq_refl) as [HF ->].
    split; [constructor; [exists r; exact Hr|exact HF]|reflexivity].
Qed.

Section SourceAlias.

Variable remove_double_quotes : string -> string.

Local Abbreviation tsql_item := (SqlServer.exitTable_source_item remove_double_quotes).
Local Abbreviation presto_item := (Presto.exitAliasedRelation remove_double_quotes).


End SourceAlias.


(** ** Callbacks that arrive without a pending column *)

(** C8, counterexample: a select-list-item callback on a fresh listener, which
    has no pending column, returns normally. *)
Lemma select_list_elem_without_pending_not_fatal :
  SqlServer.handle id (fun _ _ => Ok []) SqlServer.ExitSelect_list_elem __init__
    = Ok __init__ /\
  ~ is_fatal (SqlServer.handle id (fun _ _ => Ok [])
                SqlServer.ExitSelect_list_elem __init__).
Proof. split; [reflexivity|]. intros [e H]. discriminate H. Qed.

Lemma resolve_all_nil resolve processed : resolve_all resolve [] processed = Ok [].
Proof. reflexivity. Qed.

(** C8, amended: a callback whose pending column is missing is ignored, not
    raised as a fault: the select-list-item callbacks of both listeners, the
    Presto relation callback and an alias-free T-SQL table-source callback
    return the listener unchanged; a scope exit on a fresh listener, which
    no scope entry precedes, returns normally and leaves it fresh. *)
Theorem missing_pending_column_ignored
    (remove_double_quotes : string -> string)
    (resolve : Column -> list Column -> result (list Column))
    (self : ColumnUsageListener) :
  (_current_col self = None ->
   SqlServer.handle remove_double_quotes resolve SqlServer.ExitSelect_list_elem self
     = Ok self /\
   SqlServer.handle remove_double_quotes resolve (SqlServer.ExitTable_source_item None) self
     = Ok self /\
   (forall a,
      Presto.handle remove_double_quotes resolve (Presto.ExitSelectSingle a) self
        = Ok self) /\
   Presto.handle remove_double_quotes resolve Presto.ExitRelationDefault self
     = Ok self) /\
  SqlServer.handle remove_double_quotes resolve SqlServer.ExitQuery_specification __init__
    = Ok __init__ /\
  Presto.handle remove_double_quotes resolve Presto.ExitQuerySpecification __init__
    = Ok __init__.
Proof.
  split; [|split; reflexivity].
  intros Hc. simpl.
  unfold SqlServer.exitSelect_list_elem, SqlServer.exitTable_source_item,
    Presto.exitSelectSingle, Presto.exitRelationDefault.
  rewrite Hc. repeat split; reflexivity.
Qed.

Lemma missing_pending_column_ignored_witness :
  SqlServer.handle id (fun _ _ => Ok []) SqlServer.ExitSelect_list_elem
    (mkListener [] [wildcard None] None [])
  = Ok (mkListener [] [wildcard None] None []).
Proof.
  destruct (missing_pending_column_ignored id (fun _ _ => Ok [])
              (mkListener [] [wildcard None] None [])) as [H _].
  destruct H as [H _]; [reflexivity | exact H].
Defined.

(** ** Pending columns at a scope exit *)

Section ScopeExit.

Variable remove_double_quotes : string -> string.
Variable resolve : Column -> list Column -> result (list Column).

Local Abbreviation tsql_handle := (SqlServer.handle remove_double_quotes resolve).
Local Abbreviation presto_handle := (Presto.handle remove_double_quotes resolve).
Local Abbreviation tsql_walk := (SqlServer.walk remove_double_quotes resolve).
Local Abbreviation presto_walk := (Presto.walk remove_double_quotes resolve).

Lemma tsql_reference_sets_pending e self :
  tsql_is_reference e = true ->
  exists c, tsql_handle e self = Ok (with_current (Some c) self).
Proof.
  destruct e as [[n|] t a| | |text| | |]; try discriminate; intros _.
  - eexists. reflexivity.
  - simpl. rewrite exitTable_name_eq.
    destruct (table_of_text_total _ _ tsql_indices text) as [t ->].
    eexists. reflexivity.
Qed.

Lemma presto_reference_sets_pending e self :
  presto_is_reference e = true ->
  exists c, presto_handle e self = Ok (with_current (Some c) self).
Proof.
  destruct e as [t|b i| | |text| | | |]; try discriminate; intros _.
  - eexists. reflexivity.
  - eexists. reflexivity.
  - simpl. rewrite exitTableName_eq.
    destruct (table_of_text_total _ _ presto_indices text) as [t ->].
    eexists. reflexivity.
Qed.

Lemma tsql_exit_ignores_pending c self :
  SqlServer.exitQuery_specification resolve (with_current c self)
  = SqlServer.exitQuery_specification resolve self.
Proof. reflexivity. Qed.

Lemma presto_exit_ignores_pending c self :
  Presto.exitQuerySpecification resolve (with_current c self)
  = Presto.exitQuerySpecification resolve self.
Proof. reflexivity. Qed.

Lemma tsql_walk_references refs rest self :
  Forall (fun e => tsql_is_reference e = true) refs ->
  tsql_walk (refs ++ SqlServer.ExitQuery_specification :: rest) self
  = tsql_walk (SqlServer.ExitQuery_specification :: rest) self.
Proof.
  intros H. revert self. induction H as [|e refs He _ IH]; intros self; [reflexivity|].
  destruct (tsql_reference_sets_pending e self He) as [c Hc].
  change (tsql_walk ((e :: refs) ++ SqlServer.ExitQuery_specification :: rest) self)
    with (self' ← tsql_handle e self;
          tsql_walk (refs ++ SqlServer.ExitQuery_specification :: rest) self').
  rewrite Hc. simpl mbind. rewrite IH. reflexivity.
Qed.



End ScopeExit.

(** ** The two queries *)

Lemma tsql_walk_app rdq resolve evs evs' self :
  SqlServer.walk rdq resolve (evs ++ evs') self
  = (self' ← SqlServer.walk rdq resolve evs self; SqlServer.walk rdq resolve evs' self').
Proof.
  revert self. induction evs as [|e evs IH]; intros self; [reflexivity|].
  simpl. destruct (SqlServer.handle rdq resolve e self); [apply IH|reflexivity].
Qed.

Local Abbreviation tsql_columns upper :=
  (SqlServer.get_columns ColumnModel.remove_double_quotes ColumnModel.resolve upper).

Lemma tsql_preprocess_ascii upper query :
  str_upper upper ->
  Py.all_chars Py.is_ascii query = true ->
  SqlServer.preprocess upper query = SqlServer.preprocess Py.ascii_upper query.
Proof.
  intros Hu Ha. unfold SqlServer.preprocess.
  rewrite (str_upper_ascii upper Hu _ (all_chars_rstrip _ _ _ Ha)). reflexivity.
Qed.

(** C1: for [SELECT a, b FROM scm.foo JOIN bar ON foo.a = bar.b] the
    T-SQL provider returns two columns, A then B, each on the [OrTable] of
    FOO (schema SCM) and BAR, whatever references the [ON] condition fires. *)
Theorem join_columns_are_ambiguous
    (upper : string -> string)
    (callbacks : string -> list SqlServer.event)
    (h : gmap nat ColumnUsageListener)
    (on_clause : list SqlServer.event) :
  str_upper upper ->
  Forall (fun e => tsql_is_reference e = true) on_clause ->
  callbacks tsql_join_text
    = tsql_join_select_from ++ on_clause ++ [SqlServer.ExitQuery_specification] ->
  (tsql_columns upper callbacks h
     "SELECT a, b FROM scm.foo JOIN bar ON foo.a = bar.b").2
  = Ok tsql_join_columns.
Proof.
  intros Hu Hon Hcb. unfold SqlServer.get_columns.
  rewrite tsql_preprocess_ascii; [|exact Hu|reflexivity].
  change (SqlServer.preprocess Py.ascii_upper
            "SELECT a, b FROM scm.foo JOIN bar ON foo.a = bar.b")
    with tsql_join_text.
  rewrite Hcb, tsql_walk_app.
  change (SqlServer.walk ColumnModel.remove_double_quotes ColumnModel.resolve
            tsql_join_select_from __init__)
    with (Ok (mkListener
                [mkColumn "*" (Some (PlainTable (mkTable "FOO" (Some "SCM") None))) None;
                 mkColumn "*" (Some (PlainTable (mkTable "BAR" None None))) None]
                [mkColumn "A" None None; mkColumn "B" None None] None [])).
  simpl mbind. rewrite tsql_walk_references by exact Hon. reflexivity.
Qed.

Lemma join_columns_are_ambiguous_witness :
  (tsql_columns Py.ascii_upper
     (fun _ => tsql_join_select_from ++ tsql_join_on ++ [SqlServer.ExitQuery_specification])
     ∅ "SELECT a, b FROM scm.foo JOIN bar ON foo.a = bar.b").2
  = Ok tsql_join_columns.
Proof.
  apply (join_columns_are_ambiguous Py.ascii_upper _ ∅ tsql_join_on).
  - exact ascii_upper_is_str_upper.
  - repeat constructor.
  - reflexivity.
Defined.

(** C2: for [SELECT tmp1.a, f FROM (SELECT a, b AS f, c FROM foobar) AS tmp1]
    the T-SQL provider returns two columns: A on FOOBAR aliased TMP1 without
    a column alias, then B, the column the inner scope renamed to F, with
    alias F, on FOOBAR aliased TMP1. *)
Theorem derived_alias_recovers_column
    (upper : string -> string)
    (callbacks : string -> list SqlServer.event)
    (h : gmap nat ColumnUsageListener) :
  str_upper upper ->
  callbacks tsql_derived_text = tsql_derived_trace ->
  (tsql_columns upper callbacks h
     "SELECT tmp1.a, f FROM (SELECT a, b AS f, c FROM foobar) AS tmp1").2
  = Ok tsql_derived_columns.
Proof.
  intros Hu Hcb. unfold SqlServer.get_columns.
  rewrite tsql_preprocess_ascii; [|exact Hu|reflexivity].
  change (SqlServer.preprocess Py.ascii_upper
            "SELECT tmp1.a, f FROM (SELECT a, b AS f, c FROM foobar) AS tmp1")
    with tsql_derived_text.
  rewrite Hcb. reflexivity.
Qed.

Lemma derived_alias_recovers_column_witness :
  (tsql_columns Py.ascii_upper (fun _ => tsql_derived_trace) ∅
     "SELECT tmp1.a, f FROM (SELECT a, b AS f, c FROM foobar) AS tmp1").2
  = Ok tsql_derived_columns.
Proof.
  apply (derived_alias_recovers_column Py.ascii_upper _ ∅).
  - exact ascii_upper_is_str_upper.
  - reflexivity.
Defined.

(** ** [OrTable]s have two distinct alternatives *)

Lemma good_col_table col col' : table col' = table col -> good_col col -> good_col col'.
Proof. unfold good_col. intros ->. trivial. Qed.

Lemma good_ref_alias a r : good_ref r -> good_ref (set_ref_alias a r).
Proof. destruct r; simpl; trivial. Qed.

Lemma good_col_aliased a col : good_col col -> good_col (aliased a col).
Proof.
  unfold good_col, aliased. simpl. destruct (table col); simpl; [|trivial].
  apply good_ref_alias.
Qed.

Lemma good_wildcard q : good_col (wildcard q).
Proof. destruct q; exact I. Qed.

Lemma Forall_removelast {A} (P : A -> Prop) l : Forall P l -> Forall P (removelast l).
Proof.
  intros H. destruct (last l) as [x|] eqn:E.
  - apply last_Some in E as [l' ->]. rewrite removelast_last.
    apply Forall_app in H. tauto.
  - apply last_None in E. subst l. constructor.
Qed.

Lemma Forall_last_default {A} (P : list A -> Prop) (l : list (list A)) :
  P [] -> Forall P l -> P (default [] (last l)).
Proof.
  intros H0 H. destruct (last l) as [x|] eqn:E; [|exact H0].
  apply last_Some in E as [l' ->]. apply Forall_app in H as [_ H].
  inversion H; assumption.
Qed.

Lemma Forall_concat {A} (P : A -> Prop) (ls : list (list A)) :
  Forall (Forall P) ls -> Forall P (concat ls).
Proof.
  induction 1 as [|l ls Hl _ IH]; simpl; [constructor|].
  apply Forall_app. split; assumption.
Qed.

Lemma mapR_Forall {A B} (f : A -> result B) (P : B -> Prop) l ys :
  (forall x y, f x = Ok y -> P y) -> mapR f l = Ok ys -> Forall P ys.
Proof.
  intros Hf. revert ys. induction l as [|x l IH]; intros ys.
  - intros [= <-]. constructor.
  - rewrite mapR_cons. destruct (f x) as [y|] eqn:Ey; [|intros H; discriminate H].
    destruct (mapR f l) as [ys'|]; [|intros H; discriminate H].
    intros [= <-]. constructor; [eapply Hf; eassumption|apply IH; reflexivity].
Qed.

(** *** The resolution model keeps the invariant *)

Lemma candidates_subset col processed c :
  c ∈ ColumnModel.candidates col processed -> c ∈ processed.
Proof.
  unfold ColumnModel.candidates. destruct (ColumnModel.qualifier col); [|trivial].
  intros H. apply list_elem_of_filter in H. tauto.
Qed.

Lemma matches_table col processed c' :
  c' ∈ ColumnModel.matches col processed ->
  exists c, c ∈ processed /\ table c' = table c.
Proof.
  unfold ColumnModel.matches, ColumnModel.named.
  repeat match goal with
         | |- context [if ?b then _ else _] => destruct b
         end;
    intros H; apply list_elem_of_fmap in H as (c & -> & Hc);
    repeat match type of Hc with
           | _ ∈ filter _ _ => apply list_elem_of_filter in Hc as [_ Hc]
           end;
    apply candidates_subset in Hc; exists c; (split; [exact Hc|]);
    unfold ColumnModel.expand; try reflexivity.
  destruct (decide (col_name c = "*")); reflexivity.
Qed.

Lemma two_alternatives (refs : list TableRef) :
  NoDup refs -> 2 <= List.length refs -> Forall good_ref refs ->
  2 <= List.length (remove_dups (refs ≫= ColumnModel.alternatives)).
Proof.
  intros Hnd Hlen Hgood.
  assert (Hpair : exists t1 t2, t1 <> t2 /\
            t1 ∈ refs ≫= ColumnModel.alternatives /\
            t2 ∈ refs ≫= ColumnModel.alternatives).
  { assert (Hor : forall ts a, OrTable ts a ∈ refs ->
              exists t1 t2, t1 <> t2 /\
                t1 ∈ refs ≫= ColumnModel.alternatives /\
                t2 ∈ refs ≫= ColumnModel.alternatives).
    { intros ts a Hin.
      pose proof (proj1 (Forall_forall _ _) Hgood _ Hin) as [Hts Hl].
      destruct ts as [|t1 [|t2 ts]]; simpl in Hl; try lia.
      exists t1, t2. apply NoDup_cons in Hts as [Hn _].
      split; [intros ->; apply Hn; left|].
      split; apply list_elem_of_bind; exists (OrTable (t1 :: t2 :: ts) a);
        (split; [simpl; set_solver|exact Hin]). }
    destruct refs as [|r1 [|r2 refs]]; simpl in Hlen; try lia.
    destruct r1 as [t1|ts a]; [|apply (Hor ts a); left].
    destruct r2 as [t2|ts a]; [|apply (Hor ts a); right; left].
    exists t1, t2. apply NoDup_cons in Hnd as [Hn _].
    split; [intros ->; apply Hn; left|].
    split; apply list_elem_of_bind;
      [exists (PlainTable t1)|exists (PlainTable t2)];
      (split; [simpl; set_solver|set_solver]). }
  destruct Hpair as (t1 & t2 & Hne & H1 & H2).
  change 2 with (List.length [t1; t2]). apply submseteq_length.
  apply NoDup_submseteq.
  - apply NoDup_cons. split; [|apply NoDup_singleton].
    intros Hin. apply list_elem_of_singleton in Hin. contradiction.
  - intros x Hx. apply elem_of_remove_dups.
    apply elem_of_cons in Hx as [->|Hx]; [exact H1|].
    apply list_elem_of_singleton in Hx as ->. exact H2.
Qed.

Lemma distinct_tables_good resolved :
  Forall good_col resolved -> Forall good_ref (ColumnModel.distinct_tables resolved).
Proof.
  intros H. apply Forall_forall. intros r Hr.
  apply elem_of_remove_dups, list_elem_of_omap in Hr as (c & Hc & Ht).
  pose proof (proj1 (Forall_forall _ _) H _ Hc) as Hg.
  unfold good_col in Hg. rewrite Ht in Hg. exact Hg.
Qed.

Lemma matches_good col processed :
  Forall good_col processed -> Forall good_col (ColumnModel.matches col processed).
Proof.
  intros H. apply Forall_forall. intros c' Hc'.
  apply matches_table in Hc' as (c & Hc & Ht).
  apply (good_col_table c c' Ht). exact (proj1 (Forall_forall _ _) H _ Hc).
Qed.

Lemma resolve_good col processed rs :
  Forall good_col processed ->
  ColumnModel.resolve col processed = Ok rs ->
  Forall good_col rs.
Proof.
  intros H. unfold ColumnModel.resolve.
  destruct (negb _); [discriminate|].
  destruct (decide _) as [Hlen|_].
  - destruct (ColumnModel.qualifier col); [discriminate|].
    intros [= <-]. constructor; [|constructor]. split.
    + apply NoDup_remove_dups.
    + apply two_alternatives; [apply NoDup_remove_dups|exact Hlen|].
      apply distinct_tables_good, matches_good, H.
  - intros [= <-]. apply matches_good, H.
Qed.

(** *** The listeners keep the invariant *)

Ltac good_trivial :=
  repeat split; simpl; try assumption; try (intros ? ?; congruence).

Section Invariant.

Variable remove_double_quotes : string -> string.
Variable resolve : Column -> list Column -> result (list Column).
Hypothesis resolve_keeps_good :
  forall col processed rs,
    Forall good_col processed -> resolve col processed = Ok rs -> Forall good_col rs.

Lemma good_init : good_listener __init__.
Proof. repeat split; try constructor. intros col H. discriminate H. Qed.

Lemma resolve_all_good processing processed rs :
  Forall good_col processed ->
  resolve_all resolve processing processed = Ok rs ->
  Forall good_col rs.
Proof.
  intros H. unfold resolve_all.
  destruct (mapR _ processing) as [rss|] eqn:E; [|intros H'; discriminate H'].
  intros [= <-]. apply Forall_concat.
  apply (mapR_Forall _ _ _ _ (fun col rs => resolve_keeps_good col processed rs H) E).
Qed.

Lemma alias_all_good a cols cols' :
  Forall good_col cols -> alias_all a cols = Ok cols' -> Forall good_col cols'.
Proof.
  intros H E. apply alias_all_inv in E as [_ ->].
  apply Forall_fmap. eapply Forall_impl; [exact H|].
  intros col Hc. apply good_col_aliased, Hc.
Qed.

Lemma good_exit_scope self result :
  good_listener self -> Forall good_col result ->
  good_listener (mkListener result (default [] (last (_stack self))) None
                            (removelast (_stack self))).
Proof.
  intros (_ & _ & _ & Hs) Hr. repeat split; simpl.
  - exact Hr.
  - apply (Forall_last_default (Forall good_col)); [constructor|exact Hs].
  - intros col H. discriminate H.
  - apply Forall_removelast, Hs.
Qed.

Lemma good_snoc cols col :
  Forall good_col cols -> good_col col -> Forall good_col (cols ++ [col]).
Proof.
  intros H Hc. apply Forall_app. split; [exact H|]. constructor; [exact Hc|constructor].
Qed.

Lemma good_pending_alias a (o : option string) col :
  good_col col ->
  good_col match table col, o with
           | Some r, Some b =>
               mkColumn (col_name col) (Some (set_ref_alias (a b) r)) (col_alias col)
           | _, _ => col
           end.
Proof.
  intros Hc. destruct (table col) as [r|] eqn:Et; [destruct o|]; try exact Hc.
  unfold good_col in Hc |- *. rewrite Et in Hc. simpl. apply good_ref_alias, Hc.
Qed.

Lemma tsql_handle_good e self self' :
  good_listener self ->
  SqlServer.handle remove_double_quotes resolve e self = Ok self' ->
  good_listener self'.
Proof.
  intros (Hp & Hq & Hc & Hs) H.
  destruct e as [n t a|t| |text|a| |]; simpl in H.
  - destruct n as [n|]; [|discriminate H]. injection H as <-.
    good_trivial. simpl. intros col [= <-]. destruct t; exact I.
  - injection H as <-. good_trivial. simpl.
    apply good_snoc; [|apply good_wildcard].
    destruct (last (_processing_cols self)) as [col|]; [|exact Hq].
    destruct (decide _); [apply Forall_removelast|]; exact Hq.
  - injection H as <-. unfold SqlServer.exitSelect_list_elem.
    destruct (_current_col self) as [col|] eqn:E; [|good_trivial].
    good_trivial. simpl. apply good_snoc; [exact Hq|apply Hc; reflexivity].
  - rewrite exitTable_name_eq in H.
    destruct (table_of_text _ _ text) as [t|]; [|discriminate H].
    injection H as <-. good_trivial. simpl. intros col [= <-]. exact I.
  - unfold SqlServer.exitTable_source_item in H.
    destruct (_current_col self) as [col|] eqn:E.
    + injection H as <-. good_trivial. simpl.
      apply good_snoc; [exact Hp|].
      apply (good_pending_alias remove_double_quotes), Hc. reflexivity.
    + destruct a as [a|]; [|injection H as <-; good_trivial].
      destruct (alias_all _ _) as [cols|] eqn:Ea; [|discriminate H].
      injection H as <-. good_trivial. simpl. apply (alias_all_good _ _ _ Hp Ea).
  - injection H as <-. unfold SqlServer.enterQuery_specification.
    destruct (truthy _); [|good_trivial].
    good_trivial; simpl; [constructor|].
    apply Forall_app. split; [exact Hs|]. constructor; [exact Hq|constructor].
  - unfold SqlServer.exitQuery_specification in H.
    destruct (resolve_all _ _ _) as [rs|] eqn:E; [|discriminate H].
    injection H as <-. apply good_exit_scope; [good_trivial|].
    apply (resolve_all_good _ _ _ Hp E).
Qed.

Lemma presto_handle_good e self self' :
  good_listener self ->
  Presto.handle remove_double_quotes resolve e self = Ok self' ->
  good_listener self'.
Proof.
  intros (Hp & Hq & Hc & Hs) H.
  destruct e as [t|b i|a|q|text|a| | |]; simpl in H.
  - injection H as <-. good_trivial. simpl. intros col [= <-]. exact I.
  - injection H as <-. good_trivial. simpl. intros col [= <-]. exact I.
  - injection H as <-. unfold Presto.exitSelectSingle.
    destruct (_current_col self) as [col|] eqn:E; [|good_trivial].
    good_trivial. simpl. apply good_snoc; [exact Hq|].
    destruct a; [|apply Hc; reflexivity].
    apply (good_col_table col); [reflexivity|apply Hc; reflexivity].
  - injection H as <-. good_trivial. simpl.
    apply good_snoc; [exact Hq|apply good_wildcard].
  - rewrite exitTableName_eq in H.
    destruct (table_of_text _ _ text) as [t|]; [|discriminate H].
    injection H as <-. good_trivial. simpl. intros col [= <-]. exact I.
  - unfold Presto.exitAliasedRelation in H.
    destruct a as [a|]; [|injection H as <-; good_trivial].
    assert (Hall : forall cols,
               alias_all (remove_double_quotes a) (processed_cols self) = Ok cols ->
               good_listener (mkListener cols (_processing_cols self)
                                         (_current_col self) (_stack self))).
    { intros cols Ea. good_trivial. simpl. apply (alias_all_good _ _ _ Hp Ea). }
    destruct (_current_col self) as [[n [r|] ca]|] eqn:E.
    + injection H as <-. good_trivial. simpl.
      intros c [= <-]. specialize (Hc _ eq_refl).
      unfold good_col in Hc |- *. simpl in *. apply good_ref_alias, Hc.
    + destruct (alias_all _ _) as [cols|] eqn:Ea; [|discriminate H].
      injection H as <-. apply Hall. reflexivity.
    + destruct (alias_all _ _) as [cols|] eqn:Ea; [|discriminate H].
      injection H as <-. apply Hall. reflexivity.
  - injection H as <-. unfold Presto.exitRelationDefault.
    destruct (_current_col self) as [col|] eqn:E; [|good_trivial].
    good_trivial. simpl. apply good_snoc; [exact Hp|apply Hc; reflexivity].
  - injection H as <-. unfold Presto.enterQuerySpecification.
    destruct (truthy _); [|good_trivial].
    good_trivial; simpl; [constructor|].
    apply Forall_app. split; [exact Hs|]. constructor; [exact Hq|constructor].
  - unfold Presto.exitQuerySpecification in H.
    destruct (resolve_all _ _ _) as [rs|] eqn:E; [|discriminate H].
    injection H as <-. apply good_exit_scope; [good_trivial|].
    apply (resolve_all_good _ _ _ Hp E).
Qed.

Lemma tsql_walk_good evs self self' :
  good_listener self ->
  SqlServer.walk remove_double_quotes resolve evs self = Ok self' ->
  good_listener self'.
Proof.
  revert self. induction evs as [|e evs IH]; intros self Hg.
  - intros [= <-]. exact Hg.
  - simpl. destruct (SqlServer.handle _ _ e self) as [s|] eqn:E;
      [|intros H; discriminate H].
    apply IH. exact (tsql_handle_good e self s Hg E).
Qed.

Lemma presto_walk_good evs self self' :
  good_listener self ->
  Presto.walk remove_double_quotes resolve evs self = Ok self' ->
  good_listener self'.
Proof.
  revert self. induction evs as [|e evs IH]; intros self Hg.
  - intros [= <-]. exact Hg.
  - simpl. destruct (Presto.handle _ _ e self) as [s|] eqn:E;
      [|intros H; discriminate H].
    apply IH. exact (presto_handle_good e self s Hg E).
Qed.

Lemma tsql_get_columns_good upper cb h query cols :
  (SqlServer.get_columns remove_double_quotes resolve upper cb h query).2 = Ok cols ->
  Forall good_col cols.
Proof.
  unfold SqlServer.get_columns.
  destruct (SqlServer.walk _ _ _ _) as [s|] eqn:E; [|intros H; discriminate H].
  intros [= <-]. exact (proj1 (tsql_walk_good _ _ _ good_init E)).
Qed.

Lemma presto_get_columns_good upper cb h query cols :
  (Presto.get_columns remove_double_quotes resolve upper cb h query).2 = Ok cols ->
  Forall good_col cols.
Proof.
  unfold Presto.get_columns.
  destruct (Presto.walk _ _ _ _) as [s|] eqn:E; [|intros H; discriminate H].
  intros [= <-]. exact (proj1 (presto_walk_good _ _ _ good_init E)).
Qed.

End Invariant.

Lemma matches_has_table col processed :
  Forall has_table processed -> Forall has_table (ColumnModel.matches col processed).
Proof.
  intros H. apply Forall_forall. intros c' Hc'.
  apply matches_table in Hc' as (c & Hc & Ht).
  unfold has_table. rewrite Ht. exact (proj1 (Forall_forall _ _) H _ Hc).
Qed.

Lemma resolve_single_table col processed r :
  Forall has_table processed ->
  ColumnModel.distinct_tables (ColumnModel.matches col processed) = [r] ->
  ColumnModel.resolve col processed = Ok (ColumnModel.matches col processed) /\
  ColumnModel.matches col processed <> [] /\
  Forall (fun c => table c = Some r) (ColumnModel.matches col processed).
Proof.
  intros Hp Hd. pose proof (matches_has_table col _ Hp) as Ht.
  assert (Hne : ColumnModel.matches col processed <> []).
  { intros E. rewrite E in Hd. discriminate Hd. }
  split; [|split; [exact Hne|]].
  - unfold ColumnModel.resolve. rewrite Hd.
    destruct (ColumnModel.matches col processed); [contradiction|]. simpl.
    destruct (decide (2 <= 1)); [lia|reflexivity].
  - apply Forall_forall. intros c Hc.
    destruct (proj1 (Forall_forall _ _) Ht _ Hc) as [r' Hr'].
    assert (Hin : r' ∈ ColumnModel.distinct_tables (ColumnModel.matches col processed)).
    { apply elem_of_remove_dups, list_elem_of_omap. exists c. split; assumption. }
    rewrite Hd in Hin. apply list_elem_of_singleton in Hin. congruence.
Qed.

Local Abbreviation presto_columns upper :=
  (Presto.get_columns ColumnModel.remove_double_quotes ColumnModel.resolve upper).

(** C3: in the columns either provider returns, every [OrTable] has no
    repeated alternative and at least two of them; the invariant is kept by
    each resolution, and a reference whose matches all come from one plain
    table resolves to columns on that plain table. *)
Theorem or_tables_have_two_alternatives :
  (forall upper cb h query cols col ts a,
     (tsql_columns upper cb h query).2 = Ok cols ->
     col ∈ cols -> table col = Some (OrTable ts a) ->
     NoDup ts /\ 2 <= List.length ts) /\
  (forall upper cb h query cols col ts a,
     (presto_columns upper cb h query).2 = Ok cols ->
     col ∈ cols -> table col = Some (OrTable ts a) ->
     NoDup ts /\ 2 <= List.length ts) /\
  (forall col processed rs,
     Forall good_col processed ->
     ColumnModel.resolve col processed = Ok rs ->
     Forall good_col rs) /\
  (forall col processed t,
     Forall has_table processed ->
     ColumnModel.distinct_tables (ColumnModel.matches col processed) = [PlainTable t] ->
     exists rs,
       ColumnModel.resolve col processed = Ok rs /\ rs <> [] /\
       Forall (fun c => table c = Some (PlainTable t)) rs).
Proof.
  split; [|split; [|split]].
  - intros upper cb h query cols col ts a H Hin Ht.
    pose proof (tsql_get_columns_good _ _ resolve_good upper cb h query cols H) as Hg.
    pose proof (proj1 (Forall_forall _ _) Hg _ Hin) as Hc.
    unfold good_col in Hc. rewrite Ht in Hc. exact Hc.
  - intros upper cb h query cols col ts a H Hin Ht.
    pose proof (presto_get_columns_good _ _ resolve_good upper cb h query cols H) as Hg.
    pose proof (proj1 (Forall_forall _ _) Hg _ Hin) as Hc.
    unfold good_col in Hc. rewrite Ht in Hc. exact Hc.
  - exact resolve_good.
  - intros col processed t Hp Hd.
    destruct (resolve_single_table col processed _ Hp Hd) as (H1 & H2 & H3).
    eauto.
Qed.

Lemma or_tables_have_two_alternatives_witness :
  (NoDup [mkTable "FOO" (Some "SCM") None; mkTable "BAR" None None] /\
   2 <= List.length [mkTable "FOO" (Some "SCM") None; mkTable "BAR" None None]) /\
  exists rs,
    ColumnModel.resolve (mkColumn "A" (Some (PlainTable (Table1 "T"))) None)
      [mkColumn "*" (Some (PlainTable (mkTable "FOO" None (Some "T")))) None;
       mkColumn "*" (Some (PlainTable (Table1 "BAR"))) None] = Ok rs /\
    rs <> [] /\
    Forall (fun c => table c = Some (PlainTable (mkTable "FOO" None (Some "T")))) rs.
Proof.
  destruct or_tables_have_two_alternatives as (H1 & _ & _ & H4). split.
  - apply (H1 Py.ascii_upper
              (fun _ => tsql_join_select_from ++ tsql_join_on
                          ++ [SqlServer.ExitQuery_specification])
              ∅ "SELECT a, b FROM scm.foo JOIN bar ON foo.a = bar.b"
              tsql_join_columns
              (mkColumn "A"
                 (Some (OrTable [mkTable "FOO" (Some "SCM") None; mkTable "BAR" None None]
                                None))
                 None) _ None).
    + reflexivity.
    + left.
    + reflexivity.
  - apply H4.
    + repeat constructor; eexists; reflexivity.
    + reflexivity.
Defined.

Lemma query_stripped_and_upper_cased_witness :
  (SqlServer.get_columns ColumnModel.remove_double_quotes ColumnModel.resolve
     Py.ascii_upper tsql_one_query_parser ∅ "select a from t").2
  = Ok [mkColumn "A" (Some (PlainTable (Table1 "T"))) None] /\
  (SqlServer.get_columns ColumnModel.remove_double_quotes ColumnModel.resolve
     Py.ascii_upper tsql_one_query_parser ∅ "select a from t;").2
  = Ok [mkColumn "A" (Some (PlainTable (Table1 "T"))) None] /\
  (SqlServer.get_columns ColumnModel.remove_double_quotes ColumnModel.resolve
     Py.ascii_upper tsql_one_query_parser ∅ "SELECT A from T").2
  = Ok [mkColumn "A" (Some (PlainTable (Table1 "T"))) None] /\
  String.get 7 (Py.ascii_upper (Py.rstrip ";" "select a from t")) = Some "A"%char.
Proof.
  destruct (query_stripped_and_upper_cased ColumnModel.remove_double_quotes
              ColumnModel.resolve Py.ascii_upper "select a from t"
              ascii_upper_is_str_upper)
    as (H1 & _ & _ & _ & _ & _ & H7 & _ & H9).
  split; [rewrite H1; reflexivity|]. split; [|split].
  - destruct (H9 tsql_one_query_parser (fun _ => []) ∅ "select a from t;") as [E _];
      [right; reflexivity|].
    rewrite E, H1. reflexivity.
  - destruct (H9 tsql_one_query_parser (fun _ => []) ∅ "SELECT A from T") as [E _];
      [left; reflexivity|].
    rewrite E, H1. reflexivity.
  - destruct (H7 eq_refl) as [_ H]. exact (H 7 "a"%char eq_refl).
Defined.


(** * Further properties of the listeners *)

(** ** Nested scopes and the stack *)

Section Scopes.

Variable remove_double_quotes : string -> string.
Variable resolve : Column -> list Column -> result (list Column).

Local Abbreviation tsql_exit := (SqlServer.exitQuery_specification resolve).
Local Abbreviation presto_exit := (Presto.exitQuerySpecification resolve).

Lemma enter_scope_same self :
  Presto.enterQuerySpecification self = SqlServer.enterQuery_specification self.
Proof. reflexivity. Qed.

Lemma exit_scope_same self : presto_exit self = tsql_exit self.
Proof. reflexivity. Qed.

(** X1: a scope entered while select-list columns are pending saves them:
    whatever the nested scope does to the processing and processed sequences
    and to the pending column, its exit, when the stack is as the entry left
    it, gives the saved columns and the stack back. *)
Theorem scope_entry_saved_until_exit (self inner self' : ColumnUsageListener) :
  _processing_cols self <> [] ->
  _stack inner = _stack (SqlServer.enterQuery_specification self) ->
  tsql_exit inner = Ok self' \/ presto_exit inner = Ok self' ->
  _processing_cols (SqlServer.enterQuery_specification self) = [] /\
  _processing_cols (Presto.enterQuerySpecification self) = [] /\
  _processing_cols self' = _processing_cols self /\
  _stack self' = _stack self.
Proof.
  intros Hne Hst H.
  assert (H' : tsql_exit inner = Ok self') by (destruct H; assumption). clear H.
  unfold Presto.enterQuerySpecification, SqlServer.enterQuery_specification in *.
  destruct (_processing_cols self) as [|c cs] eqn:E; [contradiction|].
  simpl in Hst |- *. unfold SqlServer.exitQuery_specification in H'.
  destruct (resolve_all _ _ _) as [rs|]; [|discriminate H'].
  injection H' as <-. simpl. rewrite Hst, last_snoc, removelast_last.
  repeat split; reflexivity.
Qed.

(** X2: a scope entered while no select-list column is pending pushes
    nothing, yet its exit pops: a nested scope without select-list columns
    that is entered that way takes the topmost saved frame, which belongs to
    an enclosing scope, as the processing sequence, and empties the processed
    sequence. *)
Theorem empty_scope_takes_enclosing_frame
    (self : ColumnUsageListener) (frames : list (list Column)) (frame : list Column) :
  _processing_cols self = [] ->
  _stack self = frames ++ [frame] ->
  SqlServer.enterQuery_specification self = self /\
  Presto.enterQuerySpecification self = self /\
  tsql_exit (SqlServer.enterQuery_specification self)
    = Ok (mkListener [] frame None frames) /\
  presto_exit (Presto.enterQuerySpecification self)
    = Ok (mkListener [] frame None frames).
Proof.
  intros Hp Hs.
  unfold Presto.enterQuerySpecification, SqlServer.enterQuery_specification,
    Presto.exitQuerySpecification, SqlServer.exitQuery_specification.
  rewrite Hp. simpl. rewrite Hp, Hs, last_snoc, removelast_last.
  repeat split; reflexivity.
Qed.

Lemma frames_nonempty_stack self self' :
  _stack self' = _stack self -> frames_nonempty self -> frames_nonempty self'.
Proof. unfold frames_nonempty. intros ->. trivial. Qed.

Lemma frames_nonempty_enter self :
  frames_nonempty self -> frames_nonempty (SqlServer.enterQuery_specification self).
Proof.
  unfold frames_nonempty, SqlServer.enterQuery_specification. intros H.
  destruct (_processing_cols self) as [|c cs] eqn:E; [exact H|]. simpl.
  apply Forall_app. split; [exact H|]. constructor; [discriminate|constructor].
Qed.

Lemma frames_nonempty_exit self self' :
  frames_nonempty self -> tsql_exit self = Ok self' -> frames_nonempty self'.
Proof.
  unfold frames_nonempty, SqlServer.exitQuery_specification. intros H H'.
  destruct (resolve_all _ _ _) as [rs|]; [|discriminate H'].
  injection H' as <-. simpl. apply Forall_removelast, H.
Qed.

Lemma tsql_handle_frames e self self' :
  frames_nonempty self ->
  SqlServer.handle remove_double_quotes resolve e self = Ok self' ->
  frames_nonempty self'.
Proof.
  intros Hf H. destruct e as [n t a|t| |text|a| |]; simpl in H.
  - destruct n; [|discriminate H]. injection H as <-. exact Hf.
  - injection H as <-. exact Hf.
  - injection H as <-. unfold SqlServer.exitSelect_list_elem.
    destruct (_current_col self); exact Hf.
  - rewrite exitTable_name_eq in H.
    destruct (table_of_text _ _ text); [|discriminate H]. injection H as <-. exact Hf.
  - unfold SqlServer.exitTable_source_item in H.
    destruct (_current_col self); [injection H as <-; exact Hf|].
    destruct a; [|injection H as <-; exact Hf].
    destruct (alias_all _ _); [|discriminate H]. injection H as <-. exact Hf.
  - injection H as <-. apply frames_nonempty_enter, Hf.
  - apply (frames_nonempty_exit self); assumption.
Qed.

Lemma presto_handle_frames e self self' :
  frames_nonempty self ->
  Presto.handle remove_double_quotes resolve e self = Ok self' ->
  frames_nonempty self'.
Proof.
  intros Hf H. destruct e as [t|b i|a|q|text|a| | |]; simpl in H.
  - injection H as <-. exact Hf.
  - injection H as <-. exact Hf.
  - injection H as <-. unfold Presto.exitSelectSingle.
    destruct (_current_col self); exact Hf.
  - injection H as <-. exact Hf.
  - rewrite exitTableName_eq in H.
    destruct (table_of_text _ _ text); [|discriminate H]. injection H as <-. exact Hf.
  - unfold Presto.exitAliasedRelation in H.
    destruct a; [|injection H as <-; exact Hf].
    destruct (_current_col self) as [[n [r|] ca]|].
    + injection H as <-. exact Hf.
    + destruct (alias_all _ _); [|discriminate H]. injection H as <-. exact Hf.
    + destruct (alias_all _ _); [|discriminate H]. injection H as <-. exact Hf.
  - injection H as <-. unfold Presto.exitRelationDefault.
    destruct (_current_col self); exact Hf.
  - injection H as <-. apply (frames_nonempty_enter self), Hf.
  - apply (frames_nonempty_exit self); assumption.
Qed.

(** X3: every frame on the stack is non-empty, at any point of any walk of
    either listener that starts on a fresh listener; so a scope exit that
    finds a frame on the stack never leaves the processing sequence empty. *)
Theorem stack_frames_are_nonempty tsql_evs presto_evs (self : ColumnUsageListener) :
  SqlServer.walk remove_double_quotes resolve tsql_evs __init__ = Ok self \/
  Presto.walk remove_double_quotes resolve presto_evs __init__ = Ok self ->
  Forall (fun frame => frame <> []) (_stack self) /\
  (forall self',
     _stack self <> [] ->
     tsql_exit self = Ok self' \/ presto_exit self = Ok self' ->
     _processing_cols self' <> []).
Proof.
  intros H.
  assert (Hf : frames_nonempty self).
  { assert (Hinit : frames_nonempty __init__) by constructor.
    destruct H as [H|H].
    - revert H Hinit. generalize __init__ as s0.
      induction tsql_evs as [|e evs IH]; intros s0 H Hs0.
      + injection H as <-. exact Hs0.
      + simpl in H.
        destruct (SqlServer.handle _ _ e s0) as [s1|] eqn:E; [|discriminate H].
        apply (IH s1 H). apply (tsql_handle_frames e s0 s1 Hs0 E).
    - revert H Hinit. generalize __init__ as s0.
      induction presto_evs as [|e evs IH]; intros s0 H Hs0.
      + injection H as <-. exact Hs0.
      + simpl in H.
        destruct (Presto.handle _ _ e s0) as [s1|] eqn:E; [|discriminate H].
        apply (IH s1 H). apply (presto_handle_frames e s0 s1 Hs0 E). }
  split; [exact Hf|].
  intros self' Hne H'.
  assert (H2 : tsql_exit self = Ok self') by (destruct H'; assumption).
  unfold SqlServer.exitQuery_specification in H2.
  destruct (resolve_all _ _ _) as [rs|]; [|discriminate H2].
  injection H2 as <-. simpl.
  destruct (last (_stack self)) as [frame|] eqn:El.
  - apply last_Some in El as [l' El]. unfold frames_nonempty in Hf.
    rewrite El in Hf. apply Forall_app in Hf as [_ Hf]. inversion Hf; assumption.
  - apply last_None in El. contradiction.
Qed.

End Scopes.

(** ** Select lists and table sources *)

Lemma table_of_text_indices_agree idx1 idx2 idx1' idx2' text :
  last_two_indices idx1 idx2 -> last_two_indices idx1' idx2' ->
  table_of_text idx1 idx2 text = table_of_text idx1' idx2' text.
Proof.
  intros H H'. unfold table_of_text.
  destruct (Py.contains "." text) eqn:E; [|reflexivity].
  destruct (two_last _ (split_length _ _ E)) as (l & x & y & ->).
  destruct (H l x y) as [-> ->]. destruct (H' l x y) as [-> ->]. reflexivity.
Qed.

Lemma presto_walk_app rdq resolve evs evs' self :
  Presto.walk rdq resolve (evs ++ evs') self
  = (self' ← Presto.walk rdq resolve evs self; Presto.walk rdq resolve evs' self').
Proof.
  revert self. induction evs as [|e evs IH]; intros self; [reflexivity|].
  simpl. destruct (Presto.handle rdq resolve e self); [apply IH|reflexivity].
Qed.

Section SelectLists.

Variable remove_double_quotes : string -> string.
Variable resolve : Column -> list Column -> result (list Column).

Local Abbreviation tsql_handle := (SqlServer.handle remove_double_quotes resolve).
Local Abbreviation presto_handle := (Presto.handle remove_double_quotes resolve).
Local Abbreviation tsql_walk := (SqlServer.walk remove_double_quotes resolve).
Local Abbreviation presto_walk := (Presto.walk remove_double_quotes resolve).

Lemma tsql_reference_ignores_pending e c self :
  tsql_is_reference e = true ->
  tsql_handle e (with_current c self) = tsql_handle e self.
Proof. destruct e as [[n|] t a| | |text| | |]; try discriminate; reflexivity. Qed.

Lemma presto_reference_ignores_pending e c self :
  presto_is_reference e = true ->
  presto_handle e (with_current c self) = presto_handle e self.
Proof. destruct e as [t|b i| | |text| | | |]; try discriminate; reflexivity. Qed.

(** X5: a column reference or table name overwrites the pending column, so
    of a run of such callbacks only the last one counts: a select-list
    expression that mentions several columns contributes the last mentioned
    one only. *)
Theorem last_reference_wins (self : ColumnUsageListener) :
  (forall refs r rest,
     Forall (fun e => tsql_is_reference e = true) refs ->
     tsql_is_reference r = true ->
     tsql_walk (refs ++ r :: rest) self = tsql_walk (r :: rest) self) /\
  (forall refs r rest,
     Forall (fun e => presto_is_reference e = true) refs ->
     presto_is_reference r = true ->
     presto_walk (refs ++ r :: rest) self = presto_walk (r :: rest) self) /\
  (forall refs column alias,
     Forall (fun e => presto_is_reference e = true) refs ->
     presto_walk (refs ++ [Presto.ExitColumnReference column;
                           Presto.ExitSelectSingle alias]) self
     = Ok (mkListener (processed_cols self)
             (_processing_cols self ++ [selected remove_double_quotes None column alias])
             None (_stack self))).
Proof.
  assert (T : forall refs r rest s,
             Forall (fun e => tsql_is_reference e = true) refs ->
             tsql_is_reference r = true ->
             tsql_walk (refs ++ r :: rest) s = tsql_walk (r :: rest) s).
  { intros refs r rest s H Hr. revert s.
    induction H as [|e refs He _ IH]; intros s; [reflexivity|].
    destruct (tsql_reference_sets_pending remove_double_quotes resolve e s He)
      as [c Hc].
    change (tsql_walk ((e :: refs) ++ r :: rest) s)
      with (s' ← tsql_handle e s; tsql_walk (refs ++ r :: rest) s').
    rewrite Hc. simpl mbind. rewrite IH. simpl.
    rewrite (tsql_reference_ignores_pending r _ s Hr). reflexivity. }
  assert (P : forall refs r rest s,
             Forall (fun e => presto_is_reference e = true) refs ->
             presto_is_reference r = true ->
             presto_walk (refs ++ r :: rest) s = presto_walk (r :: rest) s).
  { intros refs r rest s H Hr. revert s.
    induction H as [|e refs He _ IH]; intros s; [reflexivity|].
    destruct (presto_reference_sets_pending remove_double_quotes resolve e s He)
      as [c Hc].
    change (presto_walk ((e :: refs) ++ r :: rest) s)
      with (s' ← presto_handle e s; presto_walk (refs ++ r :: rest) s').
    rewrite Hc. simpl mbind. rewrite IH. simpl.
    rewrite (presto_reference_ignores_pending r _ s Hr). reflexivity. }
  split; [|split].
  - intros refs r rest. apply T.
  - intros refs r rest. apply P.
  - intros refs column alias H. rewrite (P refs (Presto.ExitColumnReference column) _ self H eq_refl).
    destruct alias; reflexivity.
Qed.

Lemma exitAsterisk_absorbs q q' self :
  SqlServer.exitAsterisk q (SqlServer.exitAsterisk q' self)
  = SqlServer.exitAsterisk q self.
Proof.
  unfold SqlServer.exitAsterisk at 1. simpl.
  rewrite last_snoc. simpl. rewrite removelast_last.
  unfold SqlServer.exitAsterisk.
  destruct (last (_processing_cols self)) as [col|] eqn:Hl; [|reflexivity].
  destruct (decide (col_name col = "*")); [|reflexivity].
  apply last_Some in Hl as [l' Hl]. rewrite Hl, removelast_last. reflexivity.
Qed.

Lemma tsql_star_events_walk q self :
  tsql_walk (tsql_star_events q) self = Ok (SqlServer.exitAsterisk q self).
Proof.
  destruct q as [q|]; simpl; [|reflexivity].
  rewrite exitTable_name_eq.
  destruct (table_of_text_total _ _ tsql_indices q) as [t ->]. simpl.
  change (SqlServer.exitAsterisk None (with_pending_table t self))
    with (SqlServer.exitAsterisk None self).
  rewrite exitAsterisk_absorbs. reflexivity.
Qed.

(** X11: the T-SQL listener keeps one star of a run of star select items:
    after the callbacks of [q1.*, ..., qn.*, q.*] (qualified or not) the
    listener is as after those of [q.*] alone, and a trailing star that was
    in the processing sequence before is replaced too. *)
Theorem consecutive_stars_collapse
    (qualifiers : list (option string)) (q : option string)
    (self : ColumnUsageListener) :
  tsql_walk (concat (tsql_star_events <$> (qualifiers ++ [q]))) self
    = Ok (SqlServer.exitAsterisk q self) /\
  List.length (_processing_cols (SqlServer.exitAsterisk q self))
    <= S (List.length (_processing_cols self)) /\
  last (_processing_cols (SqlServer.exitAsterisk q self)) = Some (wildcard q).
Proof.
  split; [|split].
  - revert self. induction qualifiers as [|q0 qs IH]; intros self.
    + simpl. rewrite app_nil_r. apply tsql_star_events_walk.
    + change (concat (tsql_star_events <$> ((q0 :: qs) ++ [q])))
        with (tsql_star_events q0 ++ concat (tsql_star_events <$> (qs ++ [q]))).
      rewrite tsql_walk_app, tsql_star_events_walk. simpl mbind.
      rewrite IH, exitAsterisk_absorbs. reflexivity.
  - unfold SqlServer.exitAsterisk. simpl. rewrite length_app. simpl.
    destruct (last (_processing_cols self)) as [col|] eqn:Hl; [|lia].
    destruct (decide _); [|lia].
    apply last_Some in Hl as [l' ->]. rewrite removelast_last, length_app.
    simpl. lia.
  - unfold SqlServer.exitAsterisk. simpl. apply last_snoc.
Qed.

(** The state both listeners reach on an item, and that no column is
    pending afterwards. *)
Lemma item_events_agree i self :
  _current_col self = None ->
  tsql_walk (tsql_item_events i) self = presto_walk (presto_item_events i) self /\
  forall self', tsql_walk (tsql_item_events i) self = Ok self' ->
                _current_col self' = None.
Proof.
  intros Hc. destruct self as [pd pg cur st]. simpl in Hc. subst cur.
  destruct i as [q n a|t a|a| |].
  - destruct q as [q|]; simpl.
    + rewrite exitTable_name_eq.
      destruct (table_of_text_total _ _ tsql_indices q) as [t ->]. simpl.
      split; [destruct a; reflexivity|]. intros s' [= <-]. reflexivity.
    + split; [destruct a; reflexivity|]. intros s' [= <-]. reflexivity.
  - simpl. rewrite exitTable_name_eq, exitTableName_eq.
    rewrite <- (table_of_text_indices_agree _ _ _ _ t tsql_indices presto_indices).
    destruct (table_of_text_total _ _ tsql_indices t) as [tb ->]. simpl.
    split; [destruct a; reflexivity|]. intros s' [= <-]. reflexivity.
  - simpl. unfold SqlServer.exitTable_source_item, Presto.exitAliasedRelation.
    simpl. destruct a as [a|]; simpl.
    + destruct (alias_all _ pd) as [cols|]; simpl.
      * split; [reflexivity|]. intros s' [= <-]. reflexivity.
      * split; [reflexivity|]. intros s' H. discriminate H.
    + split; [reflexivity|]. intros s' [= <-]. reflexivity.
  - simpl. split; [reflexivity|]. intros s' [= <-].
    unfold SqlServer.enterQuery_specification. simpl.
    destruct (truthy pg); reflexivity.
  - simpl. unfold SqlServer.exitQuery_specification, Presto.exitQuerySpecification.
    simpl. destruct (resolve_all resolve pg pd) as [rs|]; simpl.
    + split; [reflexivity|]. intros s' [= <-]. reflexivity.
    + split; [reflexivity|]. intros s' H. discriminate H.
Qed.

Lemma items_walk_agree (items : list item) (self : ColumnUsageListener) :
  _current_col self = None ->
  tsql_walk (concat (tsql_item_events <$> items)) self
  = presto_walk (concat (presto_item_events <$> items)) self.
Proof.
  revert self. induction items as [|i items IH]; intros self Hc; [reflexivity|].
  change (concat (tsql_item_events <$> i :: items))
    with (tsql_item_events i ++ concat (tsql_item_events <$> items)).
  change (concat (presto_item_events <$> i :: items))
    with (presto_item_events i ++ concat (presto_item_events <$> items)).
  rewrite tsql_walk_app, presto_walk_app.
  destruct (item_events_agree i self Hc) as [Heq Hnone]. rewrite <- Heq.
  destruct (tsql_walk (tsql_item_events i) self) as [s1|]; [|reflexivity].
  simpl. apply IH, Hnone. reflexivity.
Qed.

(** X12: on a query made of column select items, table sources, derived
    table aliases and nested scopes the two listeners go through the same
    states: from a listener without a pending column, the T-SQL callbacks of
    the items and their Presto callbacks give the same listener, or raise
    the same exception. *)
Theorem listeners_agree_on_items (items : list item) (self : ColumnUsageListener) :
  _current_col self = None ->
  tsql_walk (concat (tsql_item_events <$> items)) self
  = presto_walk (concat (presto_item_events <$> items)) self.
Proof.
  revert self. induction items as [|i items IH]; intros self Hc; [reflexivity|].
  change (concat (tsql_item_events <$> i :: items))
    with (tsql_item_events i ++ concat (tsql_item_events <$> items)).
  change (concat (presto_item_events <$> i :: items))
    with (presto_item_events i ++ concat (presto_item_events <$> items)).
  rewrite tsql_walk_app, presto_walk_app.
  destruct (item_events_agree i self Hc) as [Heq Hnone]. rewrite <- Heq.
  destruct (tsql_walk (tsql_item_events i) self) as [s1|]; [|reflexivity].
  simpl. apply IH, Hnone. reflexivity.
Qed.

Lemma tsql_select_items_walk
    (l : list (option string * string * option string))
    (self : ColumnUsageListener) :
  _current_col self = None ->
  tsql_walk (concat (tsql_item_events <$> select_items l)) self
  = Ok (mkListener (processed_cols self)
          (_processing_cols self
             ++ ((fun '(q, n, a) => selected remove_double_quotes q n a) <$> l))
          None (_stack self)).
Proof.
  revert self. induction l as [|[[q n] a] l IH]; intros self Hc.
  - simpl. rewrite app_nil_r. destruct self; simpl in *; subst; reflexivity.
  - change (concat (tsql_item_events <$> select_items ((q, n, a) :: l)))
      with (tsql_item_events (SelectColumn q n a)
              ++ concat (tsql_item_events <$> select_items l)).
    rewrite tsql_walk_app.
    assert (H1 : tsql_walk (tsql_item_events (SelectColumn q n a)) self
                 = Ok (mkListener (processed_cols self)
                         (_processing_cols self
                            ++ [selected remove_double_quotes q n a])
                         None (_stack self))).
    { destruct q as [q|]; simpl; [|reflexivity].
      rewrite exitTable_name_eq.
      destruct (table_of_text_total _ _ tsql_indices q) as [t ->]. reflexivity. }
    rewrite H1. simpl mbind. rewrite IH by reflexivity. simpl.
    rewrite <- app_assoc. reflexivity.
Qed.

(** X4: a select list of column items is appended to the processing
    sequence item by item, in select-list order, by either listener; the
    other fields stay, and nothing is raised. *)
Theorem select_list_appended_in_order
    (l : list (option string * string * option string))
    (self : ColumnUsageListener) :
  _current_col self = None ->
  let after :=
    mkListener (processed_cols self)
      (_processing_cols self
         ++ ((fun '(q, n, a) => selected remove_double_quotes q n a) <$> l))
      None (_stack self) in
  tsql_walk (concat (tsql_item_events <$> select_items l)) self = Ok after /\
  presto_walk (concat (presto_item_events <$> select_items l)) self = Ok after.
Proof.
  intros Hc after. split.
  - apply tsql_select_items_walk, Hc.
  - rewrite <- (items_walk_agree _ self Hc). apply tsql_select_items_walk, Hc.
Qed.

Lemma last_two_segments_ok idx1 idx2 text :
  last_two_indices idx1 idx2 ->
  table_of_text idx1 idx2 text = Ok (last_two_segments text).
Proof.
  intros H. unfold table_of_text, last_two_segments.
  destruct (Py.contains "." text) eqn:E.
  - destruct (two_last _ (split_length _ _ E)) as (l & x & y & ->).
    destruct (H l x y) as [-> ->]. rewrite rev_app_distr. reflexivity.
  - rewrite (split_no_sep _ _ E). reflexivity.
Qed.

Lemma tsql_table_sources_walk (ts : list (string * option string))
    (self : ColumnUsageListener) :
  tsql_walk (concat (tsql_item_events <$> table_sources ts)) self
  = Ok (mkListener
          (processed_cols self ++ (source_column remove_double_quotes <$> ts))
          (_processing_cols self)
          (match ts with [] => _current_col self | _ => None end)
          (_stack self)).
Proof.
  revert self. induction ts as [|[text a] ts IH]; intros self.
  - simpl. rewrite app_nil_r. destruct self; reflexivity.
  - change (concat (tsql_item_events <$> table_sources ((text, a) :: ts)))
      with (tsql_item_events (TableSource text a)
              ++ concat (tsql_item_events <$> table_sources ts)).
    rewrite tsql_walk_app.
    assert (H1 : tsql_walk (tsql_item_events (TableSource text a)) self
                 = Ok (mkListener
                         (processed_cols self
                            ++ [source_column remove_double_quotes (text, a)])
                         (_processing_cols self) None (_stack self))).
    { simpl. rewrite exitTable_name_eq, (last_two_segments_ok _ _ _ tsql_indices).
      destruct a; reflexivity. }
    rewrite H1. simpl mbind. rewrite IH. simpl. rewrite <- app_assoc.
    destruct ts; reflexivity.
Qed.

Lemma flat_query_walk l ts :
  tsql_walk (concat (tsql_item_events <$> flat_query l ts)) __init__
  = (cols ← resolve_all resolve
               ((fun '(q, n, a) => selected remove_double_quotes q n a) <$> l)
               (source_column remove_double_quotes <$> ts);
     Ok (mkListener cols [] None [])).
Proof.
  unfold flat_query.
  change (concat (tsql_item_events <$> EnterScope :: ?r))
    with (tsql_item_events EnterScope ++ concat (tsql_item_events <$> r)).
  rewrite !fmap_app, !concat_app, !tsql_walk_app.
  change (tsql_walk (tsql_item_events EnterScope) __init__) with (Ok __init__).
  rewrite bind_Ok, !tsql_walk_app, tsql_select_items_walk by reflexivity.
  rewrite bind_Ok, tsql_walk_app, tsql_table_sources_walk, bind_Ok.
  simpl. unfold SqlServer.exitQuery_specification. simpl.
  destruct (resolve_all _ _ _); reflexivity.
Qed.

(** X15: for a query of one scope, a select list of column items over a
    list of table sources, either provider returns what resolving the
    selected columns, in select-list order, against the wildcard columns of
    the table sources, in source order, gives; an exception of
    [Column.resolve] is the exception of [get_columns]. *)
Theorem flat_query_columns
    (upper : string -> string)
    (tsql_callbacks : string -> list SqlServer.event)
    (presto_callbacks : string -> list Presto.event)
    (h : gmap nat ColumnUsageListener) (query : string)
    (l : list (option string * string * option string))
    (ts : list (string * option string)) :
  tsql_callbacks (SqlServer.preprocess upper query)
    = concat (tsql_item_events <$> flat_query l ts) ->
  presto_callbacks (Presto.preprocess upper query)
    = concat (presto_item_events <$> flat_query l ts) ->
  let columns :=
    resolve_all resolve
      ((fun '(q, n, a) => selected remove_double_quotes q n a) <$> l)
      (source_column remove_double_quotes <$> ts) in
  (SqlServer.get_columns remove_double_quotes resolve upper tsql_callbacks h query).2
    = columns /\
  (Presto.get_columns remove_double_quotes resolve upper presto_callbacks h query).2
    = columns.
Proof.
  intros Ht Hp columns. unfold SqlServer.get_columns, Presto.get_columns.
  rewrite Ht, Hp, <- (items_walk_agree _ __init__ eq_refl), flat_query_walk.
  subst columns. destruct (resolve_all _ _ _); split; reflexivity.
Qed.

End SelectLists.

(** ** Exceptions of the listeners *)

Lemma mapR_raise {A B} (f : A -> result B) l e :
  mapR f l = Raise e -> exists x, x ∈ l /\ f x = Raise e.
Proof.
  induction l as [|x l IH]; [intros H; discriminate H|].
  rewrite mapR_cons. destruct (f x) as [y|e'] eqn:Ex.
  - destruct (mapR f l) as [ys|e'']; [intros H; discriminate H|].
    intros [= <-]. destruct (IH eq_refl) as (x' & Hin & Hx').
    exists x'. split; [right; exact Hin|exact Hx'].
  - intros [= <-]. exists x. split; [left|exact Ex].
Qed.

Lemma alias_all_raise a cols e :
  alias_all a cols = Raise e ->
  e = AttributeError /\ ~ Forall has_table cols.
Proof.
  intros H. split.
  - apply mapR_raise in H as (col & _ & H). rewrite set_table_alias_spec in H.
    destruct (table col); [discriminate H|]. injection H as <-. reflexivity.
  - intros HF. rewrite (alias_all_ok _ _ HF) in H. discriminate H.
Qed.

Lemma alias_all_cases a cols :
  (Forall has_table cols /\ alias_all a cols = Ok (aliased a <$> cols)) \/
  (~ Forall has_table cols /\ alias_all a cols = Raise AttributeError).
Proof.
  destruct (alias_all a cols) as [cols'|e] eqn:E.
  - apply alias_all_inv in E as [HF ->]. left. split; [exact HF|reflexivity].
  - apply alias_all_raise in E as [-> Hn]. right. split; [exact Hn|reflexivity].
Qed.

Section Exceptions.

Variable remove_double_quotes : string -> string.
Variable resolve : Column -> list Column -> result (list Column).

Local Abbreviation tsql_item := (SqlServer.exitTable_source_item remove_double_quotes).
Local Abbreviation presto_item := (Presto.exitAliasedRelation remove_double_quotes).

(** X6: the table-source callbacks raise exactly when an alias has to be
    spread over the processed sequence and one of its entries has no table:
    in the T-SQL listener when an alias is given and no column is pending, in
    the Presto listener when an alias is given and no column with a table is
    pending.  The exception is the [AttributeError] of [col.table.alias] on
    [None]. *)
Theorem source_alias_raises_iff (alias : option string) (self : ColumnUsageListener) :
  (is_fatal (tsql_item alias self) <->
     _current_col self = None /\ is_Some alias /\
     ~ Forall has_table (processed_cols self)) /\
  (is_fatal (presto_item alias self) <->
     (forall col, _current_col self = Some col -> table col = None) /\
     is_Some alias /\
     ~ Forall has_table (processed_cols self)) /\
  (forall e, tsql_item alias self = Raise e \/ presto_item alias self = Raise e ->
             e = AttributeError).
Proof.
  unfold SqlServer.exitTable_source_item, Presto.exitAliasedRelation, is_fatal.
  destruct alias as [a|].
  - destruct (alias_all_cases (remove_double_quotes a) (processed_cols self))
      as [[HF E]|[HF E]]; rewrite E; clear E;
      destruct (_current_col self) as [[n [r|] ca]|]; simpl.
    all: split; [|split].
    all: try (split; [intros [e H]; discriminate H|]).
    all: try (intros (H1 & H2 & H3); first [discriminate H1 | contradiction
                | discriminate (H1 _ eq_refl)]).
    all: try (intros e [H|H]; first [discriminate H | injection H as <-; reflexivity]).
    all: try (split; [intros _|intros _; eexists; reflexivity];
              repeat split; eauto; intros col [= <-]; reflexivity).
    all: try (split; [intros _|intros _; eexists; reflexivity];
              repeat split; eauto; intros col H; discriminate H).
  - destruct (_current_col self) as [col|]; simpl.
    all: split; [|split].
    all: try (split; [intros [e H]; discriminate H|
                      intros (_ & [x Hx] & _); discriminate Hx]).
    all: intros e [H|H]; discriminate H.
Qed.

(** X9: a later alias overwrites an earlier one: when no column is pending,
    giving the processed sequence the alias [b] after the alias [a] leaves
    what giving it [b] alone leaves, in either listener. *)
Theorem later_alias_overwrites (a b : string) (self self' : ColumnUsageListener) :
  _current_col self = None ->
  (tsql_item (Some a) self = Ok self' ->
   tsql_item (Some b) self' = tsql_item (Some b) self) /\
  (presto_item (Some a) self = Ok self' ->
   presto_item (Some b) self' = presto_item (Some b) self).
Proof.
  intros Hc.
  assert (Hab : forall cols, Forall has_table cols ->
            alias_all (remove_double_quotes b)
              (aliased (remove_double_quotes a) <$> cols)
            = alias_all (remove_double_quotes b) cols).
  { intros cols HF. rewrite (alias_all_ok _ cols HF).
    rewrite alias_all_ok.
    - f_equal. rewrite <- list_fmap_compose. apply list_fmap_ext.
      intros i col _. unfold aliased. simpl. destruct (table col) as [[t|ts o]|]; reflexivity.
    - apply Forall_fmap. eapply Forall_impl; [exact HF|].
      intros col [r Hr]. unfold has_table, aliased. simpl. rewrite Hr. eexists. reflexivity. }
  unfold SqlServer.exitTable_source_item, Presto.exitAliasedRelation.
  rewrite Hc.
  destruct (alias_all_cases (remove_double_quotes a) (processed_cols self))
    as [[HF E]|[HF E]]; rewrite E; simpl.
  - split; intros [= <-]; simpl; rewrite (Hab _ HF); reflexivity.
  - split; intros H; discriminate H.
Qed.

Lemma resolve_all_raise processing processed e :
  resolve_all resolve processing processed = Raise e ->
  exists col, col ∈ processing /\ resolve col processed = Raise e.
Proof.
  unfold resolve_all.
  destruct (mapR _ processing) as [rs|e'] eqn:E; [intros H; discriminate H|].
  intros [= <-]. apply mapR_raise in E. exact E.
Qed.

Lemma tsql_handle_raise e self x :
  SqlServer.handle remove_double_quotes resolve e self = Raise x ->
  x = AttributeError \/ exists col cols, resolve col cols = Raise x.
Proof.
  destruct e as [n t a|t| |text|a| |]; simpl; intros H; try discriminate H.
  - destruct n; [discriminate H|]. injection H as <-. left. reflexivity.
  - rewrite exitTable_name_eq in H.
    destruct (table_of_text_total _ _ tsql_indices text) as [tb Ht].
    rewrite Ht in H. discriminate H.
  - unfold SqlServer.exitTable_source_item in H.
    destruct (_current_col self); [discriminate H|].
    destruct a as [a|]; [|discriminate H].
    destruct (alias_all _ _) as [cols|e'] eqn:E; [discriminate H|].
    injection H as <-. apply alias_all_raise in E as [-> _]. left. reflexivity.
  - unfold SqlServer.exitQuery_specification in H.
    destruct (resolve_all _ _ _) as [rs|e'] eqn:E; [discriminate H|].
    injection H as <-. apply resolve_all_raise in E as (col & _ & E).
    right. eauto.
Qed.

Lemma presto_handle_raise e self x :
  Presto.handle remove_double_quotes resolve e self = Raise x ->
  x = AttributeError \/ exists col cols, resolve col cols = Raise x.
Proof.
  destruct e as [t|b i|a|q|text|a| | |]; simpl; intros H; try discriminate H.
  - rewrite exitTableName_eq in H.
    destruct (table_of_text_total _ _ presto_indices text) as [tb Ht].
    rewrite Ht in H. discriminate H.
  - unfold Presto.exitAliasedRelation in H.
    destruct a as [a|]; [|discriminate H].
    destruct (alias_all _ _) as [cols|e'] eqn:E.
    + destruct (_current_col self) as [[n [r|] ca]|]; discriminate H.
    + apply alias_all_raise in E as [-> _].
      destruct (_current_col self) as [[n [r|] ca]|];
        first [discriminate H | injection H as <-; left; reflexivity].
  - unfold Presto.exitQuerySpecification in H.
    destruct (resolve_all _ _ _) as [rs|e'] eqn:E; [discriminate H|].
    injection H as <-. apply resolve_all_raise in E as (col & _ & E).
    right. eauto.
Qed.

(** X10: a walk of either listener raises nothing of its own but
    [AttributeError]: any other exception is one [Column.resolve] raised, and
    the subscripts [db_tbl[-1]] and [db_tbl[-2]] are never out of range. *)
Theorem walk_raises_attribute_error_or_resolves
    tsql_evs presto_evs (self : ColumnUsageListener) (e : exn) :
  SqlServer.walk remove_double_quotes resolve tsql_evs self = Raise e \/
  Presto.walk remove_double_quotes resolve presto_evs self = Raise e ->
  e = AttributeError \/ exists col cols, resolve col cols = Raise e.
Proof.
  intros [H|H].
  - revert self H. induction tsql_evs as [|ev evs IH]; intros self H;
      [discriminate H|].
    simpl in H. destruct (SqlServer.handle _ _ ev self) as [s1|x] eqn:E.
    + exact (IH s1 H).
    + injection H as <-. exact (tsql_handle_raise ev self x E).
  - revert self H. induction presto_evs as [|ev evs IH]; intros self H;
      [discriminate H|].
    simpl in H. destruct (Presto.handle _ _ ev self) as [s1|x] eqn:E.
    + exact (IH s1 H).
    + injection H as <-. exact (presto_handle_raise ev self x E).
Qed.

End Exceptions.

(** ** What a table name keeps of its text *)

Lemma split_singleton c s y :
  Py.split c s = [y] -> s = y /\ Py.contains c s = false.
Proof.
  revert y. induction s as [|d r IH]; intros y; simpl.
  - intros [= <-]. split; reflexivity.
  - destruct (Ascii.eqb d c) eqn:Ed.
    + intros H. injection H as _ H. destruct (split_nonempty c r H).
    + destruct (Py.split c r) as [|h t] eqn:Er; [destruct (split_nonempty c r Er)|].
      intros H. injection H as <- ->. destruct (IH h eq_refl) as [-> Hc].
      split; [reflexivity|exact Hc].
Qed.

Lemma split_last_two c s l x y :
  Py.split c s = l ++ [x; y] ->
  exists pre : string,
    s = (pre ++ x ++ String c y)%string /\
    (l = [] -> pre = EmptyString) /\
    (l <> [] -> exists p : string, pre = (p ++ String c EmptyString)%string) /\
    Py.contains c x = false /\ Py.contains c y = false.
Proof.
  revert l x. induction s as [|d r IH]; intros l x; simpl.
  - intros H. apply (f_equal (@List.length string)) in H.
    rewrite length_app in H. simpl in H. lia.
  - destruct (Ascii.eqb d c) eqn:Ed.
    + apply Ascii.eqb_eq in Ed. subst d. destruct l as [|h l]; simpl.
      * intros H. injection H as <- H. apply split_singleton in H as [-> Hc].
        exists EmptyString. repeat split; try reflexivity; try assumption.
        intros Hn. contradiction.
      * intros H. injection H as <- H.
        destruct (IH l x H) as (pre & -> & Hnil & Hcons & Hx & Hy).
        exists (String c pre). repeat split; try assumption.
        -- intros Hn. discriminate Hn.
        -- intros _. destruct l as [|h' l'].
           ++ rewrite (Hnil eq_refl). exists EmptyString. reflexivity.
           ++ destruct Hcons as [p ->]; [discriminate|].
              exists (String c p). reflexivity.
    + destruct (Py.split c r) as [|h t] eqn:Er; [destruct (split_nonempty c r Er)|].
      destruct l as [|h0 l]; simpl.
      * intros H. injection H as <- ->.
        destruct (IH [] h eq_refl) as (pre & -> & Hnil & _ & Hx & Hy).
        rewrite (Hnil eq_refl). exists EmptyString.
        repeat split; try reflexivity; try assumption.
        -- intros Hn. contradiction.
        -- simpl. rewrite Ed. exact Hx.
      * intros H. injection H as <- ->.
        destruct (IH (h :: l) x eq_refl) as (pre & -> & _ & Hcons & Hx & Hy).
        destruct Hcons as [p ->]; [discriminate|].
        exists (String d p ++ String c EmptyString)%string.
        repeat split; try assumption.
        -- intros Hn. discriminate Hn.
        -- intros _. exists (String d p). reflexivity.
Qed.

(** X7: the table a table-name callback builds keeps at most the last two
    dot-separated segments of the text: its name never contains a dot, its
    schema (if any) neither, the text ends in schema, dot, name, and whatever
    precedes them (a database or catalog prefix) is dropped. *)
Theorem table_name_keeps_last_two_segments (text : string) (self : ColumnUsageListener) :
  exists t,
    SqlServer.exitTable_name text self = Ok (with_pending_table t self) /\
    Presto.exitTableName text self = Ok (with_pending_table t self) /\
    alias t = None /\
    Py.contains "." (name t) = false /\
    match schema t with
    | None => name t = text
    | Some sc =>
        Py.contains "." sc = false /\
        exists pre : string,
          text = (pre ++ sc ++ "." ++ name t)%string /\
          (pre = EmptyString \/ exists p : string, pre = (p ++ ".")%string)
    end.
Proof.
  rewrite exitTable_name_eq, exitTableName_eq.
  rewrite <- (table_of_text_indices_agree _ _ _ _ text tsql_indices presto_indices).
  unfold table_of_text. destruct (Py.contains "." text) eqn:E.
  - destruct (two_last _ (split_length _ _ E)) as (l & x & y & Hl). rewrite Hl.
    destruct (tsql_indices l x y) as [-> ->].
    destruct (split_last_two _ _ _ _ _ Hl) as (pre & Ht & Hnil & Hcons & Hx & Hy).
    exists (mkTable y (Some x) None). simpl.
    repeat split; try assumption.
    exists pre. split; [exact Ht|].
    destruct l as [|h l]; [left; apply Hnil; reflexivity|].
    right. apply Hcons. discriminate.
  - exists (Table1 text). simpl. repeat split. exact E.
Qed.

(** ** What [rstrip] strips *)

(** X8: [get_columns] strips the run of semicolons at the very end of the
    query and nothing else: the query is the stripped text followed by
    semicolons only, and a query whose last character is not a semicolon (a
    semicolon followed by a newline or a blank, say) reaches the parser
    upper-cased but unstripped. *)
Theorem only_trailing_semicolons_stripped (upper : string -> string) (query : string) :
  (exists n,
     query = (Py.rstrip ";" query ++ replicate_char n ";")%string /\
     Py.last_char (Py.rstrip ";" query) <> Some ";"%char) /\
  (Py.last_char query <> Some ";"%char ->
   SqlServer.preprocess upper query = (upper query ++ newline)%string /\
   Presto.preprocess upper query = (upper query ++ newline)%string).
Proof.
  split.
  - destruct (rstrip_decompose ";" query) as [n Hn]. exists n.
    split; [exact Hn|apply rstrip_last].
  - intros H. unfold SqlServer.preprocess, Presto.preprocess.
    rewrite (rstrip_id _ _ H). split; reflexivity.
Qed.

Lemma only_trailing_semicolons_stripped_witness :
  SqlServer.preprocess Py.ascii_upper ("select a from t;" ++ newline)
  = ("SELECT A FROM T;" ++ newline ++ newline)%string.
Proof.
  destruct (only_trailing_semicolons_stripped Py.ascii_upper
              ("select a from t;" ++ newline))
    as [_ H].
  destruct H as [H _]; [discriminate | exact H].
Defined.

(** ** The sample loader *)

Section SampleLoader.

Import SampleUserLoader.

Context {value : Type}.

Local Abbreviation row := (gmap string (option value)).
Local Abbreviation stored := (gmap string value).

Lemma row_tuple_done (keys : list string) (i : row) :
  (forall k, k ∈ keys -> is_Some (i !! k)) ->
  exists cells, row_tuple value keys i = Done cells /\
                Forall2 (fun k c => i !! k = Some c) keys cells.
Proof.
  induction keys as [|k keys IH]; intros H.
  - exists []. split; [reflexivity|constructor].
  - destruct (H k) as [c Hc]; [left|].
    destruct IH as (cells & Hcells & HF); [intros k' Hk'; apply H; right; exact Hk'|].
    exists (c :: cells). simpl. unfold getitem. rewrite Hc, Hcells.
    split; [reflexivity|constructor; assumption].
Qed.

Lemma row_tuple_key_error (keys : list string) (i : row) key :
  row_tuple value keys i = KeyError key -> key ∈ keys /\ i !! key = None.
Proof.
  induction keys as [|k keys IH]; simpl; [intros H; discriminate H|].
  unfold getitem. destruct (i !! k) as [c|] eqn:Ek.
  - destruct (row_tuple value keys i) as [cells|key'|];
      [intros H; discriminate H| |intros H; discriminate H].
    intros [= <-]. destruct (IH eq_refl) as [Hin Hn]. split; [right; exact Hin|exact Hn].
  - intros [= <-]. split; [left|exact Ek].
Qed.

Lemma row_tuple_missing (keys : list string) (i : row) k :
  k ∈ keys -> i !! k = None -> exists key, row_tuple value keys i = KeyError key.
Proof.
  induction keys as [|k0 keys IH]; intros Hin Hk; [inversion Hin|]. simpl.
  unfold getitem. destruct (i !! k0) as [c|] eqn:E0; [|eauto].
  apply elem_of_cons in Hin as [->|Hin]; [congruence|].
  destruct (IH Hin Hk) as [key ->]. eauto.
Qed.

Lemma row_tuple_no_integrity (keys : list string) (i : row) :
  row_tuple value keys i <> IntegrityError.
Proof.
  induction keys as [|k keys IH]; simpl; [discriminate|].
  unfold getitem. destruct (i !! k); [|discriminate].
  destruct (row_tuple value keys i); [discriminate|discriminate|exact IH].
Qed.

Lemma to_db_cons (i : row) dr :
  to_db value (i :: dr)
  = match row_tuple value tuple_keys i with
    | Done t =>
        match to_db value dr with
        | Done ts => Done (t :: ts)
        | KeyError key => KeyError key
        | IntegrityError => IntegrityError
        end
    | KeyError key => KeyError key
    | IntegrityError => IntegrityError
    end.
Proof. reflexivity. Qed.

Lemma to_db_done (dr : list row) :
  (forall i k, i ∈ dr -> k ∈ @tuple_keys -> is_Some (i !! k)) ->
  exists tuples, to_db value dr = Done tuples.
Proof.
  induction dr as [|i dr IH]; intros H; [exists []; reflexivity|].
  destruct IH as [tuples Ht]; [intros i' k Hi' Hk; apply H; [right|]; assumption|].
  destruct (row_tuple_done tuple_keys i) as (cells & Hc & _);
    [intros k Hk; apply H; [left|exact Hk]|].
  rewrite to_db_cons, Hc, Ht. eauto.
Qed.

Lemma not_null_none (keys : list string) (i : row) cells :
  Forall2 (fun k c => i !! k = Some c) keys cells ->
  (exists k, k ∈ keys /\ i !! k = Some None) ->
  not_null value cells = None.
Proof.
  induction 1 as [|k c keys cells Hk _ IH]; intros (k' & Hin & Hn); [inversion Hin|].
  simpl. destruct c as [v|]; [|reflexivity].
  apply elem_of_cons in Hin as [->|Hin]; [congruence|].
  rewrite IH; [reflexivity|eauto].
Qed.

Lemma not_null_some (keys : list string) (i : row) cells :
  Forall2 (fun k c => i !! k = Some c) keys cells ->
  (forall k, k ∈ keys -> i !! k <> Some None) ->
  exists vs, not_null value cells = Some vs /\
             Forall2 (fun k v => i !! k = Some (Some v)) keys vs.
Proof.
  induction 1 as [|k c keys cells Hk _ IH]; intros Hn.
  - exists []. split; [reflexivity|constructor].
  - destruct IH as (vs & Hvs & HF); [intros k' Hk'; apply Hn; right; exact Hk'|].
    destruct c as [v|]; [|destruct (Hn k); [left|exact Hk]].
    exists (v :: vs). simpl. rewrite Hvs.
    split; [reflexivity|constructor; assumption].
Qed.

Lemma executemany_cons columns (t : list (option value)) ts :
  executemany value columns (t :: ts)
  = match not_null value t with
    | None => IntegrityError
    | Some vs =>
        match executemany value columns ts with
        | Done records => Done (list_to_map (zip columns vs) :: records)
        | KeyError key => KeyError key
        | IntegrityError => IntegrityError
        end
    end.
Proof. reflexivity. Qed.

Lemma executemany_no_key_error columns (tuples : list (list (option value))) key :
  executemany value columns tuples <> KeyError key.
Proof.
  induction tuples as [|t ts IH]; [discriminate|]. rewrite executemany_cons.
  destruct (not_null value t); [|discriminate].
  destruct (executemany value columns ts); [discriminate|exact IH|discriminate].
Qed.

(** The record [executemany] stores for the tuple of a row without [None]. *)
Lemma stored_record (i : row) vs :
  Forall2 (fun k v => i !! k = Some (Some v)) tuple_keys vs ->
  let record : stored := list_to_map (zip insert_columns vs) in
  i !! "email" = Some (record !! "email") /\
  i !! "first_name" = Some (record !! "last_name") /\
  i !! "last_name" = Some (record !! "first_name") /\
  i !! "name" = Some (record !! "name") /\
  i !! "github_username" = Some (record !! "github_username") /\
  i !! "team_name" = Some (record !! "employee_type") /\
  i !! "employee_type" = Some (record !! "team_name") /\
  i !! "manager_email" = Some (record !! "manager_email") /\
  i !! "slack_id" = Some (record !! "slack_id") /\
  i !! "is_active" = Some (record !! "is_active") /\
  i !! "updated_at" = Some (record !! "updated_at").
Proof.
  unfold tuple_keys. intros H.
  repeat match goal with
         | H : Forall2 _ (_ :: _) _ |- _ =>
             apply Forall2_cons_inv_l in H as (? & ? & ? & H & ->)
         | H : Forall2 _ [] _ |- _ => apply Forall2_nil_inv_l in H as ->
         end.
  cbv zeta. unfold insert_columns. simpl zip. simpl list_to_map.
  repeat split;
    repeat (first [rewrite lookup_insert_eq | rewrite lookup_insert_ne by discriminate]);
    assumption.
Qed.

(** X13: for rows that have the eleven keys, the loader raises
    [sqlite3.IntegrityError] as soon as a row holds [None] under one of them
    (every column is [NOT NULL]); otherwise it stores one record per row, in
    order, and the value tuple and the column list of the [INSERT]
    statement are ordered differently: a record's [last_name] is the row's
    [first_name] and its [first_name] the row's [last_name], its
    [employee_type] is the row's [team_name] and its [team_name] the row's
    [employee_type]; the other seven columns hold the row's own fields. *)
Theorem loader_swaps_columns (dr : list row) :
  (forall i k, i ∈ dr -> k ∈ @tuple_keys -> is_Some (i !! k)) ->
  ((exists i k, i ∈ dr /\ k ∈ @tuple_keys /\ i !! k = Some None) ->
   load_table_data_from_csv value dr = IntegrityError) /\
  ((forall i k, i ∈ dr -> k ∈ @tuple_keys -> i !! k <> Some None) ->
   exists records : list stored,
     load_table_data_from_csv value dr = Done records /\
     List.length records = List.length dr /\
     forall n i,
       dr !! n = Some i ->
       exists record,
         records !! n = Some record /\
         i !! "first_name" = Some (record !! "last_name") /\
         i !! "last_name" = Some (record !! "first_name") /\
         i !! "team_name" = Some (record !! "employee_type") /\
         i !! "employee_type" = Some (record !! "team_name") /\
         forall k,
           k ∈ ["email"; "name"; "github_username"; "manager_email"; "slack_id";
                "is_active"; "updated_at"] ->
           i !! k = Some (record !! k)).
Proof.
  unfold load_table_data_from_csv. induction dr as [|i dr IH]; intros H.
  - split.
    + intros (i & k & Hi & _). inversion Hi.
    + intros _. exists []. repeat split. intros n i Hn. discriminate Hn.
  - assert (Hdr : forall i' k, i' ∈ dr -> k ∈ @tuple_keys -> is_Some (i' !! k)).
    { intros i' k Hi' Hk. apply H; [right; exact Hi'|exact Hk]. }
    destruct (IH Hdr) as [IHbad IHgood].
    destruct (row_tuple_done tuple_keys i) as (cells & Hcells & HF).
    { intros k Hk. apply H; [left|exact Hk]. }
    destruct (to_db_done dr Hdr) as [tuples Htuples].
    rewrite to_db_cons, Hcells, Htuples, executemany_cons.
    rewrite Htuples in IHbad, IHgood. split.
    + intros (i' & k & Hi' & Hk & Hn). apply elem_of_cons in Hi' as [->|Hi'].
      * rewrite (not_null_none _ _ _ HF); [reflexivity|eauto].
      * rewrite IHbad by eauto. destruct (not_null value cells); reflexivity.
    + intros Hn.
      destruct (not_null_some _ _ _ HF) as (vs & Hvs & HFvs).
      { intros k Hk. apply Hn; [left|exact Hk]. }
      destruct IHgood as (records & Hload & Hlen & Hrec).
      { intros i' k Hi' Hk. apply Hn; [right; exact Hi'|exact Hk]. }
      rewrite Hvs, Hload.
      exists (list_to_map (zip insert_columns vs) :: records).
      split; [reflexivity|]. split; [simpl; rewrite Hlen; reflexivity|].
      intros [|n] i' Hi'.
      * injection Hi' as <-. eexists. split; [reflexivity|].
        pose proof (stored_record i vs HFvs) as
          (He & Hf & Hl & Hna & Hg & Htn & Het & Hm & Hs & Ha & Hu).
        repeat split; try assumption.
        intros k Hk.
        repeat (apply elem_of_cons in Hk as [->|Hk]; [assumption|]).
        inversion Hk.
      * apply Hrec. exact Hi'.
Qed.

(** X14: the loader raises [KeyError] exactly when some row lacks one of
    the eleven keys, with a key that row lacks; no record is stored then,
    and keys beyond the eleven never matter. *)
Theorem loader_key_error (dr : list row) :
  ((exists key, load_table_data_from_csv value dr = KeyError key) <->
   exists i k, i ∈ dr /\ k ∈ @tuple_keys /\ i !! k = None) /\
  (forall key,
     load_table_data_from_csv value dr = KeyError key ->
     key ∈ @tuple_keys /\ exists i, i ∈ dr /\ i !! key = None).
Proof.
  unfold load_table_data_from_csv.
  assert (Hk : forall key, to_db value dr = KeyError key ->
                 key ∈ @tuple_keys /\ exists i, i ∈ dr /\ i !! key = None).
  { induction dr as [|i dr IH]; [intros key H; discriminate H|].
    intros key. rewrite to_db_cons.
    destruct (row_tuple value tuple_keys i) as [cells|key'|] eqn:E.
    - destruct (to_db value dr) as [ts|key''|];
        [intros H; discriminate H| |intros H; discriminate H].
      intros [= <-]. destruct (IH _ eq_refl) as (Hin & i' & Hi' & Hn).
      split; [exact Hin|]. exists i'. split; [right; exact Hi'|exact Hn].
    - intros [= <-]. apply row_tuple_key_error in E as [Hin Hn].
      split; [exact Hin|]. exists i. split; [left|exact Hn].
    - intros H; discriminate H. }
  assert (Hload : forall key,
            match to_db value dr with
            | Done tuples => executemany value insert_columns tuples
            | KeyError key => KeyError key
            | IntegrityError => IntegrityError
            end = KeyError key -> to_db value dr = KeyError key).
  { intros key. destruct (to_db value dr) as [ts|key'|]; intros H.
    - destruct (executemany_no_key_error _ _ _ H).
    - injection H as ->. reflexivity.
    - discriminate H. }
  split; [split|].
  - intros [key H]. destruct (Hk _ (Hload _ H)) as (Hin & i & Hi & Hn). eauto.
  - intros (i & k & Hi & Hkin & Hn).
    assert (Hr : exists key, to_db value dr = KeyError key).
    { clear Hk Hload. induction dr as [|i0 dr IH]; [inversion Hi|]. rewrite to_db_cons.
      destruct (row_tuple value tuple_keys i0) as [cells|key'|] eqn:E.
      - apply elem_of_cons in Hi as [->|Hi].
        + destruct (row_tuple_missing tuple_keys i0 k Hkin Hn) as [key Hkey]. congruence.
        + destruct (IH Hi) as [key ->]. eauto.
      - eauto.
      - destruct (row_tuple_no_integrity _ _ E). }
    destruct Hr as [key ->]. eauto.
  - intros key H. apply Hk, Hload, H.
Qed.

End SampleLoader.

(** ** The properties at concrete listeners *)

Lemma scope_entry_saved_until_exit_witness :
  _processing_cols (mkListener [mkColumn "B" None None] [mkColumn "A" None None] None [])
    = [mkColumn "A" None None] /\
  _stack (mkListener [mkColumn "B" None None] [mkColumn "A" None None] None []) = [].
Proof.
  destruct (scope_entry_saved_until_exit (fun col _ => Ok [col])
              (mkListener [] [mkColumn "A" None None] None [])
              (mkListener [wildcard None] [mkColumn "B" None None]
                          (Some (mkColumn "C" None None)) [[mkColumn "A" None None]])
              (mkListener [mkColumn "B" None None] [mkColumn "A" None None] None []))
    as (_ & _ & H1 & H2);
    [discriminate | reflexivity | left; reflexivity |].
  exact (conj H1 H2).
Defined.

Lemma empty_scope_takes_enclosing_frame_witness :
  SqlServer.exitQuery_specification (fun col _ => Ok [col])
    (SqlServer.enterQuery_specification
       (mkListener [wildcard None] [] None [[mkColumn "A" None None]]))
  = Ok (mkListener [] [mkColumn "A" None None] None []).
Proof.
  destruct (empty_scope_takes_enclosing_frame (fun col _ => Ok [col])
              (mkListener [wildcard None] [] None [[mkColumn "A" None None]])
              [] [mkColumn "A" None None]) as (_ & _ & H & _);
    [reflexivity | reflexivity | exact H].
Defined.

Lemma stack_frames_are_nonempty_witness :
  Forall (fun frame : list Column => frame <> [])
    (_stack (mkListener [] [] None [[mkColumn "A" None None]])).
Proof.
  apply (stack_frames_are_nonempty id (fun col _ => Ok [col])
           [SqlServer.ExitColumn_elem (Some "A") None None;
            SqlServer.ExitSelect_list_elem;
            SqlServer.EnterQuery_specification] []
           (mkListener [] [] None [[mkColumn "A" None None]])).
  left. reflexivity.
Defined.

Lemma select_list_appended_in_order_witness :
  SqlServer.walk id (fun col _ => Ok [col])
    (concat (tsql_item_events
               <$> select_items [(Some "T", "A", None); (None, "B", Some "F")]))
    __init__
  = Ok (mkListener []
          [mkColumn "A" (Some (PlainTable (Table1 "T"))) None;
           mkColumn "B" None (Some "F")] None []).
Proof.
  destruct (select_list_appended_in_order id (fun col _ => Ok [col])
              [(Some "T", "A", None); (None, "B", Some "F")] __init__ eq_refl)
    as [H _].
  exact H.
Defined.

Lemma last_reference_wins_witness :
  Presto.walk id (fun col _ => Ok [col])
    ([Presto.ExitColumnReference "A"; Presto.ExitDereference "T" "B"]
       ++ [Presto.ExitColumnReference "C"; Presto.ExitSelectSingle (Some "S")])
    __init__
  = Ok (mkListener [] [mkColumn "C" None (Some "S")] None []).
Proof.
  destruct (last_reference_wins id (fun col _ => Ok [col]) __init__) as (_ & _ & H).
  apply (H [Presto.ExitColumnReference "A"; Presto.ExitDereference "T" "B"]
           "C" (Some "S")).
  repeat constructor.
Defined.

Lemma source_alias_raises_iff_witness :
  is_fatal (Presto.exitAliasedRelation id (Some "T")
              (mkListener [mkColumn "X" None None] [] None [])).
Proof.
  destruct (source_alias_raises_iff id (Some "T")
              (mkListener [mkColumn "X" None None] [] None [])) as (_ & [_ H] & _).
  apply H. split; [intros col Hc; discriminate Hc|].
  split; [eexists; reflexivity|].
  intros HF. inversion HF as [|? ? [r Hr] ?]. discriminate Hr.
Defined.

Lemma later_alias_overwrites_witness :
  SqlServer.exitTable_source_item id (Some "B")
    (mkListener [mkColumn "A" (Some (PlainTable (mkTable "T" None (Some "A")))) None]
                [] None [])
  = SqlServer.exitTable_source_item id (Some "B")
      (mkListener [mkColumn "A" (Some (PlainTable (Table1 "T"))) None] [] None []).
Proof.
  destruct (later_alias_overwrites id "A" "B"
              (mkListener [mkColumn "A" (Some (PlainTable (Table1 "T"))) None] [] None [])
              (mkListener [mkColumn "A" (Some (PlainTable (mkTable "T" None (Some "A")))) None]
                          [] None [])
              eq_refl) as [H _].
  apply H. reflexivity.
Defined.

Lemma walk_raises_attribute_error_or_resolves_witness :
  AttributeError = AttributeError \/
  exists col cols, (fun (c : Column) (_ : list Column) => Ok [c]) col cols
                   = Raise AttributeError.
Proof.
  apply (walk_raises_attribute_error_or_resolves id (fun col _ => Ok [col])
           [] [Presto.ExitColumnReference "X"; Presto.ExitRelationDefault;
               Presto.ExitAliasedRelation (Some "T")] __init__ AttributeError).
  right. reflexivity.
Defined.

Lemma listeners_agree_on_items_witness :
  SqlServer.walk id (fun col _ => Ok [col])
    (concat (tsql_item_events
               <$> [EnterScope; SelectColumn (Some "T") "A" None;
                    TableSource "SCM.FOO" (Some "T"); ExitScope]))
    __init__
  = Presto.walk id (fun col _ => Ok [col])
      (concat (presto_item_events
                 <$> [EnterScope; SelectColumn (Some "T") "A" None;
                      TableSource "SCM.FOO" (Some "T"); ExitScope]))
      __init__.
Proof. apply listeners_agree_on_items. reflexivity. Defined.

Lemma loader_swaps_columns_witness :
  SampleUserLoader.load_table_data_from_csv nat
    [list_to_map (zip SampleUserLoader.tuple_keys (Some <$> seq 0 11));
     <["slack_id" := None]>
       (list_to_map (zip SampleUserLoader.tuple_keys (Some <$> seq 0 11)))]
  = SampleUserLoader.IntegrityError.
Proof.
  destruct (loader_swaps_columns
              [list_to_map (zip SampleUserLoader.tuple_keys (Some <$> seq 0 11));
               <["slack_id" := None]>
                 (list_to_map (zip SampleUserLoader.tuple_keys (Some <$> seq 0 11)))
               : gmap string (option nat)])
    as [H _].
  - intros i k Hi Hk. unfold SampleUserLoader.tuple_keys in Hk.
    apply elem_of_cons in Hi as [->|Hi];
      [|apply list_elem_of_singleton in Hi; subst i];
      repeat (apply elem_of_cons in Hk as [->|Hk]; [eexists; reflexivity|]);
      inversion Hk.
  - apply H. eexists _, "slack_id". split; [right; left|].
    split; [|reflexivity]. unfold SampleUserLoader.tuple_keys.
    do 8 right. left.
Defined.

Lemma loader_key_error_witness :
  exists key,
    SampleUserLoader.load_table_data_from_csv nat [{[ "email" := Some 0 ]}]
    = SampleUserLoader.KeyError key.
Proof.
  destruct (loader_key_error [{[ "email" := Some 0 ]} : gmap string (option nat)])
    as [[_ H] _].
  apply H. exists {[ "email" := Some 0 ]}, "first_name".
  split; [left|]. split; [right; left|reflexivity].
Defined.

Lemma flat_query_columns_witness :
  (SqlServer.get_columns id (fun col _ => Ok [col]) Py.ascii_upper
     (fun _ => concat (tsql_item_events
                         <$> flat_query [(None, "A", None)] [("SCM.FOO", Some "T")]))
     ∅ "select a from scm.foo t").2
  = Ok [mkColumn "A" None None].
Proof.
  destruct (flat_query_columns id (fun col _ => Ok [col]) Py.ascii_upper
              (fun _ => concat (tsql_item_events
                                  <$> flat_query [(None, "A", None)]
                                        [("SCM.FOO", Some "T")]))
              (fun _ => concat (presto_item_events
                                  <$> flat_query [(None, "A", None)]
                                        [("SCM.FOO", Some "T")]))
              ∅ "select a from scm.foo t"
              [(None, "A", None)] [("SCM.FOO", Some "T")] eq_refl eq_refl)
    as [H _].
  exact H.
Defined.
